(** * yaml_metadata: the recursive schema builder

    A shallow embedding of [src/yaml_metadata.py].  The program walks a
    graph of [TableDefinition] objects (as decoded from a YAML document)
    and fills a SQLAlchemy [MetaData] with one [Table] per definition,
    adding a foreign-key column to every nested table.

    Python objects are shared and mutable, so the embedding keeps them in
    an explicit store: the definition objects live in a heap indexed by
    references (a definition may mention itself, or be mentioned twice),
    and the tables live in the registry [MetaData.tables], keyed by name
    and kept in insertion order.  Exceptions leave the store as it is at
    the point where they are raised.

    The values of a [columns] mapping are type names (strings) or nested
    definitions.  Of the schema library the embedding keeps what the
    program uses: a table is a name with an ordered sequence of columns,
    a column knows the table it is attached to, its primary-key flag and
    the column it refers to, and [types.__dict__] is a parameter.  The
    [print] of [construct_foreign_key] has no effect on the store and is
    left out. *)

From Stdlib Require Import Ascii String.
From stdpp Require Import gmap strings list.

(** ** Objects of the schema library *)

(** A type object, the result of calling an entry of [types.__dict__];
    [Column(name, None, ForeignKey(..))] has no type of its own. *)
Inductive TypeEngine :=
| Instance (cls : string)
| NullType.

Module Column.
(** [Column(name, type_, ForeignKey(..), primary_key=..)].  [table] is
    the table the column is attached to, set by [Table(..)] and by
    [Table.append_column].  [foreign_key] is the referenced column, as
    table name and column name. *)
Record t := make {
  name : string;
  type_ : TypeEngine;
  primary_key : bool;
  foreign_key : option (string * string);
  table : option string
}.

(** [str(column)]: a column attached to a table prints as
    [table.name], a free one as its bare name. *)
Definition str (c : t) : string :=
  match table c with
  | Some tbl => tbl +:+ "." +:+ name c
  | None => name c
  end.
End Column.

Module Table.
Record t := make {
  name : string;
  columns : list Column.t
}.

(** [table.primary_key.columns]: the columns flagged as primary key. *)
Definition primary_key (tbl : t) : list Column.t :=
  filter (λ c, Column.primary_key c = true) (columns tbl).
End Table.

(** ** The definition graph *)

Definition ref := nat.

(** A value of the [columns] mapping: the name of a type, or a nested
    [!Table] object. *)
Inductive value :=
| ColumnSpec (typeName : string)
| Nested (r : ref).

Module TableDefinition.
(** [primary_key] is [None] when the object has no such attribute
    ([hasattr(table_def, 'primary_key')] is false). *)
Record t := make {
  name : string;
  columns : list (string * value);
  primary_key : option string
}.
End TableDefinition.

(** What [yaml.load] hands to [generate_metadata]: one [!Table] object, or
    a YAML sequence of them. *)
Inductive document :=
| DocTable (r : ref)
| DocList (items : list ref).

(** ** Store, exceptions and the monad of the builder *)

Record state := State {
  defs : gmap ref TableDefinition.t;
  tables : list Table.t
}.

Inductive exn :=
| KeyError (msg : string)
| StopIteration
| InvalidRequestError (msg : string)
| AttributeError (msg : string)
| RecursionError
| DuplicateColumn (tbl col : string)
| NoSuchObject.

Inductive result (A : Type) :=
| Return (a : A)
| Raise (e : exn).
Arguments Return {A} a.
Arguments Raise {A} e.

Definition M (A : Type) : Type := state → state * result A.

Definition ret {A} (a : A) : M A := λ st, (st, Return a).
Definition raise {A} (e : exn) : M A := λ st, (st, Raise e).
Definition bind {A B} (m : M A) (k : A → M B) : M B :=
  λ st, match m st with
        | (st', Return a) => k a st'
        | (st', Raise e) => (st', Raise e)
        end.
Definition lift {A} (r : result A) : M A := λ st, (st, r).

Declare Scope py_scope.
Delimit Scope py_scope with py.
Notation "x ← y ; z" := (bind y (λ x, z))
  (at level 20, y at level 100, z at level 200, only parsing) : py_scope.
Notation "x ;; z" := (bind x (λ _, z))
  (at level 100, z at level 200, only parsing, right associativity) : py_scope.
Open Scope py_scope.

(** ** Dictionaries kept as association lists *)

Section Dict.
Context {V : Type}.

(** [d[key]] *)
Fixpoint dict_get (key : string) (d : list (string * V)) : option V :=
  match d with
  | [] => None
  | (k, v) :: d' => if decide (k = key) then Some v else dict_get key d'
  end.

(** [del d[key]] *)
Fixpoint dict_del (key : string) (d : list (string * V)) : list (string * V) :=
  match d with
  | [] => []
  | (k, v) :: d' =>
      if decide (k = key) then dict_del key d' else (k, v) :: dict_del key d'
  end.
End Dict.

(** ** The registry [MetaData.tables] *)

Definition table_names (ts : list Table.t) : list string := Table.name <$> ts.

(** [name in metadata.tables] *)
Definition has_table (nm : string) (ts : list Table.t) : bool :=
  bool_decide (nm ∈ table_names ts).

(** [metadata.tables[name]] *)
Fixpoint get_table (nm : string) (ts : list Table.t) : option Table.t :=
  match ts with
  | [] => None
  | tbl :: ts' => if decide (Table.name tbl = nm) then Some tbl else get_table nm ts'
  end.

Definition attach (tbl : string) (c : Column.t) : Column.t :=
  Column.make (Column.name c) (Column.type_ c) (Column.primary_key c)
              (Column.foreign_key c) (Some tbl).

(** The table object registered under [nm] gets [c] as its last column. *)
Fixpoint add_column (nm : string) (c : Column.t) (ts : list Table.t) : list Table.t :=
  match ts with
  | [] => []
  | tbl :: ts' =>
      if decide (Table.name tbl = nm)
      then Table.make nm (Table.columns tbl ++ [attach nm c]) :: ts'
      else tbl :: add_column nm c ts'
  end.

Definition column_names (tbl : Table.t) : list string :=
  Column.name <$> Table.columns tbl.

(** [Table(name, metadata, column)] for a name that is not registered:
    the new table holds the one column and is added to the registry. *)
Definition new_table (nm : string) (c : Column.t) : M unit :=
  λ st, (State (defs st) (tables st ++ [Table.make nm [attach nm c]]), Return tt).

(** [metadata.tables] as it is now. *)
Definition get_tables : M (list Table.t) := λ st, (st, Return (tables st)).

(** The live table object named [nm]. *)
Definition the_table (nm : string) : M Table.t :=
  λ st, match get_table nm (tables st) with
        | Some tbl => (st, Return tbl)
        | None => (st, Raise NoSuchObject)
        end.

(** [Table(name, metadata, autoload=True, mustexist=True)]: the table
    already registered under that name, or an error. *)
Definition existing_table (nm : string) : M Table.t :=
  λ st, match get_table nm (tables st) with
        | Some tbl => (st, Return tbl)
        | None => (st, Raise (InvalidRequestError ("Table '" +:+ nm +:+ "' not defined")))
        end.

(** [table.append_column(c)] on the table named [nm].  The column goes to
    the end of the column sequence.  When the table already has a column
    of that name the library's answer depends on its version (replace,
    warn or refuse); the model stops there with [DuplicateColumn]. *)
Definition append_column (nm : string) (c : Column.t) : M unit :=
  tbl ← the_table nm;
  if bool_decide (Column.name c ∈ column_names tbl)
  then raise (DuplicateColumn nm (Column.name c))
  else λ st, (State (defs st) (add_column nm c (tables st)), Return tt).

(** The definition object behind a reference. *)
Definition deref (r : ref) : M TableDefinition.t :=
  λ st, match defs st !! r with
        | Some d => (st, Return d)
        | None => (st, Raise NoSuchObject)
        end.

(** [del table_def.columns[key]] on the object behind [r]. *)
Definition del_column (r : ref) (key : string) : M unit :=
  λ st, match defs st !! r with
        | Some d =>
            let d' := TableDefinition.make (TableDefinition.name d)
                        (dict_del key (TableDefinition.columns d))
                        (TableDefinition.primary_key d) in
            (State (<[r := d']> (defs st)) (tables st), Return tt)
        | None => (st, Raise NoSuchObject)
        end.

(** ** The program *)

Definition dquote : string := String "034"%char EmptyString.

(** ['Unknown type "%s" in column "%s"' % (column_type, name)] *)
Definition unknown_type_message (column_type name : string) : string :=
  "Unknown type " +:+ dquote +:+ column_type +:+ dquote +:+
  " in column " +:+ dquote +:+ name +:+ dquote.

(** How a value prints under [%s]; a [TableDefinition] object has no
    printing method of its own. *)
Definition value_str (v : value) : string :=
  match v with
  | ColumnSpec typeName => typeName
  | Nested _ => "<TableDefinition object>"
  end.

Section Builder.
(** [types.__dict__] of the schema library: for each name it holds,
    the type object that calling the entry gives. *)
Variable types_dict : gmap string TypeEngine.

(** [types.__dict__[column_type]]; a definition object is no key of
    that dictionary. *)
Definition lookup_type (column_type : value) : option TypeEngine :=
  match column_type with
  | ColumnSpec typeName => types_dict !! typeName
  | Nested _ => None
  end.

(** [Column(name, types.__dict__[column_type]())]: an ordinary column,
    not flagged as primary key; a missing type name is reported with the
    name of the column. *)
Definition construct_column (name : string) (column_type : value) : result Column.t :=
  match lookup_type column_type with
  | Some ty => Return (Column.make name ty false None None)
  | None => Raise (KeyError (unknown_type_message (value_str column_type) name))
  end.

(** [one_table] is the name under which the live table object [table] of
    the caller is registered.  In the order of the source: the first
    column of [one_table.primary_key.columns] ([StopIteration] when there
    is none), the name [one_table.name] and the printed column joined by
    an underscore, the table [many_name] that must exist, the entry of
    [dict(one_table.columns)] under the name of the key, and the new
    column appended to the table [many_name]. *)
Definition construct_foreign_key (one_table many_name : string) : M unit :=
  one ← the_table one_table;
  match Table.primary_key one with
  | [] => raise StopIteration
  | first_primary_key :: _ =>
      let column_name := Table.name one +:+ "_" +:+ Column.str first_primary_key in
      many_table ← existing_table many_name;
      match find (λ c, bool_decide (Column.name c = Column.name first_primary_key))
                 (Table.columns one) with
      | None => raise (KeyError (Column.name first_primary_key))
      | Some target =>
          append_column (Table.name many_table)
            (Column.make column_name NullType false
               (Some (default EmptyString (Column.table target), Column.name target))
               None)
      end
  end.

(** The loop over [table_def.columns.items()], with the recursive call
    as a parameter. *)
Fixpoint construct_columns (rec : ref → M unit) (table : string)
    (items : list (string * value)) : M unit :=
  match items with
  | [] => ret tt
  | (name, value) :: items' =>
      match value with
      | Nested child =>
          rec child ;;
          child_def ← deref child;
          construct_foreign_key table (TableDefinition.name child_def) ;;
          construct_columns rec table items'
      | ColumnSpec _ =>
          c ← lift (construct_column name value);
          append_column table c ;;
          construct_columns rec table items'
      end
  end.

(** The branch on [hasattr(table_def, 'primary_key')]: the column
    that opens the new table.  A designated entry is built like any
    other column and then deleted from the definition; without one the
    key is [Column('id', Integer, primary_key=True)]. *)
Definition key_column (r : ref) (table_def : TableDefinition.t) : M Column.t :=
  match TableDefinition.primary_key table_def with
  | Some pk =>
      match dict_get pk (TableDefinition.columns table_def) with
      | None => raise (KeyError pk)
      | Some column_type =>
          c ← lift (construct_column pk column_type);
          del_column r pk ;;
          ret c
      end
  | None => ret (Column.make "id" (Instance "Integer") true None None)
  end.

(** [construct_table(table_def, table_metadata)], [r] being the reference
    to [table_def].  A registered name ends the call; otherwise the key
    column opens a new table, which is registered before the loop over
    the remaining entries.  [fuel] is the depth of recursion that the
    interpreter allows. *)
Fixpoint construct_table (fuel : nat) (r : ref) : M unit :=
  match fuel with
  | O => raise RecursionError
  | S fuel' =>
      table_def ← deref r;
      registered ← get_tables;
      if has_table (TableDefinition.name table_def) registered then ret tt
      else
        primary_key ← key_column r table_def;
        new_table (TableDefinition.name table_def) primary_key ;;
        table_def' ← deref r;
        construct_columns (construct_table fuel') (TableDefinition.name table_def)
          (TableDefinition.columns table_def')
  end.

(** [generate_metadata]: the loaded document goes to [construct_table]
    as it is, whose first step reads [table_def.name]; a list has no
    such attribute.  The registry is returned only when no exception
    was raised. *)
Definition generate_metadata (fuel : nat) (heap : gmap ref TableDefinition.t)
    (table_def : document) : result (list Table.t) :=
  let table_metadata := State heap [] in
  match table_def with
  | DocTable r =>
      match construct_table fuel r table_metadata with
      | (st, Return _) => Return (tables st)
      | (_, Raise e) => Raise e
      end
  | DocList _ => Raise (AttributeError "'list' object has no attribute 'name'")
  end.
End Builder.

(** ** The document at the end of the module *)

Definition sqlalchemy_types : gmap string TypeEngine :=
  list_to_map [("String", Instance "String"); ("Integer", Instance "Integer");
               ("Text", Instance "Text"); ("Boolean", Instance "Boolean")].

Definition items_def : TableDefinition.t :=
  TableDefinition.make "items" [("description", ColumnSpec "String")] None.

Definition people_def : TableDefinition.t :=
  TableDefinition.make "people"
    [("firstName", ColumnSpec "String"); ("lastName", ColumnSpec "String");
     ("inventory", Nested 1)] None.

Definition example_heap : gmap ref TableDefinition.t :=
  <[0 := people_def]> (<[1 := items_def]> ∅).

(** The two tables of that document once both are registered and
    their declared columns are in place, before the foreign key is made. *)
Definition people_table : Table.t :=
  Table.make "people"
    [Column.make "id" (Instance "Integer") true None (Some "people");
     Column.make "firstName" (Instance "String") false None (Some "people");
     Column.make "lastName" (Instance "String") false None (Some "people")].

Definition items_table : Table.t :=
  Table.make "items"
    [Column.make "id" (Instance "Integer") true None (Some "items");
     Column.make "description" (Instance "String") false None (Some "items")].

(** A definition that designates its primary key, declared last. *)
Definition accounts_def : TableDefinition.t :=
  TableDefinition.make "accounts"
    [("owner", ColumnSpec "String"); ("number", ColumnSpec "Integer")]
    (Some "number").

Definition accounts_heap : gmap ref TableDefinition.t := {[0 := accounts_def]}.

(** A definition with a column of a type that the catalog does not hold. *)
Definition bogus_def : TableDefinition.t :=
  TableDefinition.make "people"
    [("firstName", ColumnSpec "String"); ("age", ColumnSpec "Bogus");
     ("lastName", ColumnSpec "String")] None.

Definition bogus_heap : gmap ref TableDefinition.t := {[0 := bogus_def]}.

(** A definition nested in itself: the value of [children] is the object
    that holds it. *)
Definition folder_def : TableDefinition.t :=
  TableDefinition.make "folder"
    [("title", ColumnSpec "String"); ("children", Nested 0);
     ("size", ColumnSpec "Integer")] None.

Definition folder_heap : gmap ref TableDefinition.t := {[0 := folder_def]}.

(** A definition that designates a key which its columns do not hold. *)
Definition ledger_def : TableDefinition.t :=
  TableDefinition.make "ledger" [("owner", ColumnSpec "String")] (Some "number").

Definition ledger_heap : gmap ref TableDefinition.t := {[0 := ledger_def]}.

(** A definition that designates its key and nests a table. *)
Definition orders_def : TableDefinition.t :=
  TableDefinition.make "orders"
    [("number", ColumnSpec "Integer"); ("lines", Nested 1)] (Some "number").

Definition lines_def : TableDefinition.t :=
  TableDefinition.make "lines" [("text", ColumnSpec "String")] None.

Definition orders_heap : gmap ref TableDefinition.t :=
  <[0 := orders_def]> (<[1 := lines_def]> ∅).

(** Two definitions nested in each other: [books] of the authors holds
    the definition of the books, and [writers] of the books holds the
    definition of the authors. *)
Definition authors_def : TableDefinition.t :=
  TableDefinition.make "authors"
    [("name", ColumnSpec "String"); ("books", Nested 1);
     ("born", ColumnSpec "Integer")] None.

Definition books_def : TableDefinition.t :=
  TableDefinition.make "books"
    [("title", ColumnSpec "String"); ("writers", Nested 0)] None.

Definition library_heap : gmap ref TableDefinition.t :=
  <[0 := authors_def]> (<[1 := books_def]> ∅).

(** A definition that designates its key and is nested in itself: the
    value of [sections] is the object that holds it. *)
Definition chapter_def : TableDefinition.t :=
  TableDefinition.make "chapter"
    [("number", ColumnSpec "Integer"); ("title", ColumnSpec "String");
     ("sections", Nested 0); ("pages", ColumnSpec "Integer")] (Some "number").

Definition chapter_heap : gmap ref TableDefinition.t := {[0 := chapter_def]}.

(** ** Columns that a definition declares *)

(** The columns that the entries of a [columns] mapping give to the table
    named [table], in the order of the mapping: an entry that holds a type
    name of the catalog gives a column, the others give none. *)
Definition declared_columns (types_dict : gmap string TypeEngine) (table : string)
    (items : list (string * value)) : list Column.t :=
  omap (λ kv, match construct_column types_dict kv.1 kv.2 with
              | Return c => Some (attach table c)
              | Raise _ => None
              end) items.

(** The column that [construct_foreign_key] makes for the key column
    [key] of the table [one], found as [target] among its columns. *)
Definition foreign_key_column (one : Table.t) (key target : Column.t) : Column.t :=
  Column.make (Table.name one +:+ "_" +:+ Column.str key) NullType false
    (Some (default EmptyString (Column.table target), Column.name target)) None.

(** The key column that a definition without a designated key gets. *)
Definition id_column : Column.t :=
  Column.make "id" (Instance "Integer") true None None.

(** The foreign key that a table with the key [id] gets when it is nested
    in itself. *)
Definition self_foreign_key (table : string) : Column.t :=
  Column.make (table +:+ "_" +:+ table +:+ "." +:+ "id") NullType false
    (Some (table, "id")) None.

(** The table of a definition named [table], without a designated key,
    whose entries [before] and [after] hold type names and are separated
    by one entry that nests the definition in itself. *)
Definition self_table (types_dict : gmap string TypeEngine) (table : string)
    (before after : list (string * value)) : Table.t :=
  Table.make table
    (attach table id_column ::
     declared_columns types_dict table before ++
     attach table (self_foreign_key table) ::
     declared_columns types_dict table after).

(** ** Relations between stores, used to state what a build may change *)

Definition is_foreign_key (c : Column.t) : Prop := is_Some (Column.foreign_key c).

(** A definition object after some steps of the builder: at most its
    designated primary-key entry is gone. *)
Definition def_step (d d' : TableDefinition.t) : Prop :=
  TableDefinition.name d' = TableDefinition.name d ∧
  TableDefinition.primary_key d' = TableDefinition.primary_key d ∧
  (TableDefinition.columns d' = TableDefinition.columns d ∨
   ∃ pk, TableDefinition.primary_key d = Some pk ∧
         TableDefinition.columns d' = dict_del pk (TableDefinition.columns d)).

Definition defs_step (h h' : gmap ref TableDefinition.t) : Prop :=
  ∀ r, option_Forall2 def_step (h !! r) (h' !! r).

(** The registry after some steps: the names it had are still there, in
    the same places, and each of its tables has only gained columns that
    satisfy [P]. *)
Definition grows_by (P : Column.t → Prop) (ts ts' : list Table.t) : Prop :=
  table_names ts `prefix_of` table_names ts' ∧
  ∀ nm tbl, get_table nm ts = Some tbl →
    ∃ tbl' more, get_table nm ts' = Some tbl' ∧
      Table.name tbl' = Table.name tbl ∧
      Table.columns tbl' = Table.columns tbl ++ more ∧ Forall P more.

Definition frame (st st' : state) : Prop :=
  defs_step (defs st) (defs st') ∧ grows_by is_foreign_key (tables st) (tables st').

(** The names of the definitions in the heap, the names registered, and
    the names still to be registered. *)
Definition def_names (h : gmap ref TableDefinition.t) : gset string :=
  map_to_set (λ _ d, TableDefinition.name d) h.

Definition registered_names (ts : list Table.t) : gset string :=
  list_to_set (table_names ts).

Definition pending (st : state) : gset string :=
  def_names (defs st) ∖ registered_names (tables st).

(** What [key_column] returns when it returns, and the definition it
    leaves behind. *)
Definition key_of (types_dict : gmap string TypeEngine) (d : TableDefinition.t) :
    option Column.t :=
  match TableDefinition.primary_key d with
  | Some pk =>
      match dict_get pk (TableDefinition.columns d) with
      | Some column_type =>
          match lookup_type types_dict column_type with
          | Some ty => Some (Column.make pk ty false None None)
          | None => None
          end
      | None => None
      end
  | None => Some (Column.make "id" (Instance "Integer") true None None)
  end.

Definition without_key (d : TableDefinition.t) : TableDefinition.t :=
  match TableDefinition.primary_key d with
  | Some pk =>
      TableDefinition.make (TableDefinition.name d)
        (dict_del pk (TableDefinition.columns d)) (TableDefinition.primary_key d)
  | None => d
  end.

(** The table [tbl] is the table of a definition of the heap [h]: its
    first column is the key of the definition (the column of the
    designated entry, or [id]), and the columns without foreign key that
    follow are the columns that the other entries declare, in the order
    of the mapping. *)
Definition built (types_dict : gmap string TypeEngine)
    (h : gmap ref TableDefinition.t) (tbl : Table.t) : Prop :=
  ∃ r d key rest,
    h !! r = Some d ∧
    TableDefinition.name d = Table.name tbl ∧
    key_of types_dict d = Some key ∧
    Column.name key = default "id" (TableDefinition.primary_key d) ∧
    Table.columns tbl = attach (Table.name tbl) key :: rest ∧
    filter (λ c, Column.foreign_key c = None) rest =
      declared_columns types_dict (Table.name tbl)
        (TableDefinition.columns (without_key d)).

(** The definitions whose name is not registered in [st'] are as they
    were in [st]. *)
Definition untouched (st st' : state) : Prop :=
  ∀ r d, defs st' !! r = Some d →
    TableDefinition.name d ∉ table_names (tables st') →
    defs st !! r = Some d.

(** The computation [m] keeps the property [I] of the store, however it
    ends. *)
Definition keeps {A} (I : state → Prop) (m : M A) : Prop :=
  ∀ st, I st → I (m st).1.

(** From a store with the property [I], the computation [m] does not end
    with the exception [e]. *)
Definition avoids {A} (I : state → Prop) (e : exn) (m : M A) : Prop :=
  ∀ st, I st → (m st).2 ≠ Raise e.

(** A column that is not flagged as primary key. *)
Definition unflagged (c : Column.t) : Prop := Column.primary_key c = false.

(** Every definition that the heap nests is in the heap, as it is for
    objects that reference each other. *)
Definition closed (h : gmap ref TableDefinition.t) : Prop :=
  ∀ r d name child,
    h !! r = Some d → (name, Nested child) ∈ TableDefinition.columns d →
    is_Some (h !! child).

(** The exceptions that the statements of [construct_table] and of the
    functions it calls can raise. *)
Definition raised_by_builder (e : exn) : Prop :=
  match e with
  | KeyError _ | StopIteration | RecursionError | DuplicateColumn _ _ => True
  | InvalidRequestError _ | AttributeError _ | NoSuchObject => False
  end.

Definition expected {A} (res : result A) : Prop :=
  match res with
  | Return _ => True
  | Raise e => raised_by_builder e
  end.

(** The foreign key that the tables nested in the table [parent] get,
    when the key of [parent] is [id]. *)
Definition parent_foreign_key (parent : string) : Column.t :=
  Column.make (parent +:+ "_" +:+ parent +:+ "." +:+ "id") NullType false
    (Some (parent, "id")) None.

(** Every column of a registered table is attached to that table. *)
Definition attached (ts : list Table.t) : Prop :=
  ∀ nm tbl c, get_table nm ts = Some tbl → c ∈ Table.columns tbl →
    Column.table c = Some nm.

(** The registry has a table [t] with a column named [k]. *)
Definition resolves (ts : list Table.t) (t k : string) : Prop :=
  ∃ tbl, get_table t ts = Some tbl ∧ k ∈ column_names tbl.

(** Every foreign key of a registered table refers to a column of a
    registered table. *)
Definition references_resolve (ts : list Table.t) : Prop :=
  ∀ nm tbl c t k, get_table nm ts = Some tbl → c ∈ Table.columns tbl →
    Column.foreign_key c = Some (t, k) → resolves ts t k.

Definition consistent (ts : list Table.t) : Prop :=
  attached ts ∧ references_resolve ts.

(** [s] occurs inside [msg]. *)
Definition mentions (msg s : string) : Prop :=
  ∃ before after, msg = before +:+ s +:+ after.

(** ** Dictionaries and the registry *)

Lemma dict_del_filter {V} key (d : list (string * V)) :
  dict_del key d = filter (λ kv, kv.1 ≠ key) d.
Proof.
  induction d as [|[k v] d IH]; [done|]. simpl.
  rewrite filter_cons. simpl. destruct (decide (k = key)) as [->|Hne].
  - by rewrite decide_False by (intros H; by apply H).
  - by rewrite decide_True, IH by done.
Qed.

Lemma dict_del_idemp {V} key (d : list (string * V)) :
  dict_del key (dict_del key d) = dict_del key d.
Proof.
  induction d as [|[k v] d IH]; [done|]. simpl.
  destruct (decide (k = key)) as [->|Hne]; [done|].
  simpl. rewrite decide_False by done. by rewrite IH.
Qed.

Lemma dict_get_del {V} key (d : list (string * V)) : dict_get key (dict_del key d) = None.
Proof.
  induction d as [|[k v] d IH]; [done|]. simpl.
  destruct (decide (k = key)) as [->|Hne]; [done|].
  simpl. by rewrite decide_False.
Qed.

Lemma get_table_name nm ts tbl : get_table nm ts = Some tbl → Table.name tbl = nm.
Proof.
  induction ts as [|t ts IH]; [done|]. simpl.
  destruct (decide (Table.name t = nm)); [congruence | done].
Qed.

Lemma get_table_is_Some nm ts : nm ∈ table_names ts ↔ is_Some (get_table nm ts).
Proof.
  unfold table_names. induction ts as [|t ts IH]; simpl.
  - split; [by intros ?%elem_of_nil | by intros [? ?]].
  - rewrite elem_of_cons. destruct (decide (Table.name t = nm)) as [->|Hne].
    + split; eauto.
    + rewrite <- IH. split; [intros [?|?]; [congruence | done] | auto].
Qed.

Lemma get_table_None nm ts : nm ∉ table_names ts ↔ get_table nm ts = None.
Proof. rewrite get_table_is_Some, eq_None_not_Some. done. Qed.

Lemma has_table_true nm ts : has_table nm ts = true ↔ nm ∈ table_names ts.
Proof. unfold has_table. by rewrite bool_decide_eq_true. Qed.

Lemma has_table_false nm ts : has_table nm ts = false ↔ nm ∉ table_names ts.
Proof. unfold has_table. by rewrite bool_decide_eq_false. Qed.

Lemma get_table_app_l nm ts ts' tbl :
  get_table nm ts = Some tbl → get_table nm (ts ++ ts') = Some tbl.
Proof.
  induction ts as [|t ts IH]; [done|]. simpl.
  destruct (decide (Table.name t = nm)); auto.
Qed.

Lemma get_table_app_r nm ts ts' :
  get_table nm ts = None → get_table nm (ts ++ ts') = get_table nm ts'.
Proof.
  induction ts as [|t ts IH]; [done|]. simpl.
  destruct (decide (Table.name t = nm)); [done | auto].
Qed.

Lemma table_names_add_column nm c ts : table_names (add_column nm c ts) = table_names ts.
Proof.
  unfold table_names. induction ts as [|t ts IH]; [done|]. simpl.
  destruct (decide (Table.name t = nm)) as [<-|]; csimpl; [done | by rewrite IH].
Qed.

Lemma get_table_add_column_eq nm c ts tbl :
  get_table nm ts = Some tbl →
  get_table nm (add_column nm c ts) =
    Some (Table.make nm (Table.columns tbl ++ [attach nm c])).
Proof.
  induction ts as [|t ts IH]; [done|]. simpl.
  destruct (decide (Table.name t = nm)) as [Heq|Hne]; simpl.
  - intros [= ->]. by rewrite decide_True.
  - intros H. rewrite decide_False by done. auto.
Qed.

Lemma get_table_add_column_ne nm nm' c ts :
  nm ≠ nm' → get_table nm' (add_column nm c ts) = get_table nm' ts.
Proof.
  intros Hne. induction ts as [|t ts IH]; [done|]. simpl.
  destruct (decide (Table.name t = nm)) as [Heq|Hne']; simpl.
  - rewrite !decide_False by congruence. done.
  - by rewrite IH.
Qed.

(** ** The relations between stores are preorders *)

Lemma def_step_refl d : def_step d d.
Proof. unfold def_step. auto. Qed.

Lemma def_step_trans d1 d2 d3 : def_step d1 d2 → def_step d2 d3 → def_step d1 d3.
Proof.
  intros (Hn & Hk & Hc) (Hn' & Hk' & Hc'). unfold def_step.
  split; [congruence|]. split; [congruence|].
  destruct Hc' as [Hc'|(pk & Hpk & Hc')]; rewrite Hc'.
  - done.
  - right. exists pk. split; [congruence|].
    destruct Hc as [->|(pk' & Hpk' & ->)]; [done|].
    assert (pk' = pk) as -> by congruence. by rewrite dict_del_idemp.
Qed.

Lemma defs_step_refl h : defs_step h h.
Proof.
  intros r. destruct (h !! r); constructor. apply def_step_refl.
Qed.

Lemma defs_step_trans h1 h2 h3 : defs_step h1 h2 → defs_step h2 h3 → defs_step h1 h3.
Proof.
  intros H12 H23 r. specialize (H12 r). specialize (H23 r).
  destruct H12 as [d1 d2 ?|]; inversion H23; subst; constructor.
  eauto using def_step_trans.
Qed.

Lemma grows_by_refl P ts : grows_by P ts ts.
Proof.
  split; [done|]. intros nm tbl H. exists tbl, []. by rewrite app_nil_r.
Qed.

Lemma grows_by_trans P ts1 ts2 ts3 :
  grows_by P ts1 ts2 → grows_by P ts2 ts3 → grows_by P ts1 ts3.
Proof.
  intros [Hn H12] [Hn' H23]. split; [by etrans|].
  intros nm tbl H.
  destruct (H12 _ _ H) as (tbl2 & more & H2 & Hnm & Hc & HP).
  destruct (H23 _ _ H2) as (tbl3 & more' & H3 & Hnm' & Hc' & HP').
  exists tbl3, (more ++ more'). split; [done|]. split; [congruence|].
  split; [by rewrite Hc', Hc, app_assoc | by apply Forall_app].
Qed.

Lemma grows_by_weaken (P Q : Column.t → Prop) ts ts' :
  (∀ c, P c → Q c) → grows_by P ts ts' → grows_by Q ts ts'.
Proof.
  intros HPQ [Hn H]. split; [done|]. intros nm tbl Hget.
  destruct (H _ _ Hget) as (tbl' & more & ? & ? & ? & HP).
  exists tbl', more. eauto using Forall_impl.
Qed.

Lemma grows_by_new_table P ts tbl : grows_by P ts (ts ++ [tbl]).
Proof.
  split.
  - unfold table_names. rewrite fmap_app. by apply prefix_app_r.
  - intros nm t H. exists t, []. rewrite app_nil_r. eauto using get_table_app_l.
Qed.

Lemma grows_by_add_column (P : Column.t → Prop) nm c ts :
  P (attach nm c) → grows_by P ts (add_column nm c ts).
Proof.
  intros HP. split; [by rewrite table_names_add_column|].
  intros nm' tbl H. destruct (decide (nm = nm')) as [<-|Hne].
  - eexists _, [attach nm c]. split; [by apply get_table_add_column_eq|].
    simpl. split; [by erewrite get_table_name|]. split; [done|]. by constructor.
  - exists tbl, []. rewrite get_table_add_column_ne, app_nil_r by done. done.
Qed.

Lemma grows_by_add_column_new P nm c ts0 ts :
  nm ∉ table_names ts0 → grows_by P ts0 ts → grows_by P ts0 (add_column nm c ts).
Proof.
  intros Hnew [Hn H]. split; [by rewrite table_names_add_column|].
  intros nm' tbl Hget.
  assert (nm ≠ nm').
  { intros <-. apply Hnew, get_table_is_Some. eauto. }
  rewrite get_table_add_column_ne by done. eauto.
Qed.

Lemma frame_refl st : frame st st.
Proof. split; [apply defs_step_refl | apply grows_by_refl]. Qed.

Lemma frame_trans st1 st2 st3 : frame st1 st2 → frame st2 st3 → frame st1 st3.
Proof.
  intros [? ?] [? ?]. split; eauto using defs_step_trans, grows_by_trans.
Qed.

(** ** What every step of the builder keeps *)

Section Keeps.
Context {A B : Type} (I : state → Prop).

Lemma keeps_ret (a : A) : keeps I (ret a).
Proof. by intros st. Qed.

Lemma keeps_raise e : keeps I (raise (A:=A) e).
Proof. by intros st. Qed.

Lemma keeps_lift (x : result A) : keeps I (lift x).
Proof. by intros st. Qed.

Lemma keeps_bind (m : M A) (k : A → M B) :
  keeps I m → (∀ a, keeps I (k a)) → keeps I (bind m k).
Proof.
  intros Hm Hk st HI. unfold bind. specialize (Hm st HI).
  destruct (m st) as [st' [a|e]]; simpl in *; [by apply Hk | done].
Qed.
End Keeps.

Lemma keeps_deref I r : keeps I (deref r).
Proof. intros st HI. unfold deref. by destruct (defs st !! r). Qed.

Lemma keeps_the_table I nm : keeps I (the_table nm).
Proof. intros st HI. unfold the_table. by destruct (get_table nm (tables st)). Qed.

Lemma keeps_existing_table I nm : keeps I (existing_table nm).
Proof. intros st HI. unfold existing_table. by destruct (get_table nm (tables st)). Qed.

Lemma keeps_get_tables I : keeps I get_tables.
Proof. by intros st. Qed.

Lemma keeps_append_foreign_key st0 nm c :
  is_foreign_key c → keeps (frame st0) (append_column nm c).
Proof.
  intros Hfk. unfold append_column. apply keeps_bind; [apply keeps_the_table|].
  intros tbl. case_bool_decide; [apply keeps_raise|].
  intros st [Hd Ht]. split; [done|]. simpl.
  eapply grows_by_trans; [done|]. by apply grows_by_add_column.
Qed.

Lemma keeps_append_new st0 nm c :
  nm ∉ table_names (tables st0) → keeps (frame st0) (append_column nm c).
Proof.
  intros Hnew. unfold append_column. apply keeps_bind; [apply keeps_the_table|].
  intros tbl. case_bool_decide; [apply keeps_raise|].
  intros st [Hd Ht]. split; [done|]. simpl. by apply grows_by_add_column_new.
Qed.

Section BuilderKeeps.
Variable types_dict : gmap string TypeEngine.

Abbreviation construct_column := (construct_column types_dict).
Abbreviation construct_columns := (construct_columns types_dict).
Abbreviation construct_table := (construct_table types_dict).
Abbreviation key_column := (key_column types_dict).

Lemma keeps_construct_foreign_key st0 one many :
  keeps (frame st0) (construct_foreign_key one many).
Proof.
  unfold construct_foreign_key.
  apply keeps_bind; [apply keeps_the_table|]. intros tbl.
  destruct (Table.primary_key tbl) as [|pk ?]; [apply keeps_raise|].
  apply keeps_bind; [apply keeps_existing_table|]. intros many_table.
  destruct (find _ _); [|apply keeps_raise].
  apply keeps_append_foreign_key. by eexists.
Qed.

Lemma keeps_construct_columns (rec : ref → M unit) st0 table items :
  (∀ child st, frame st (rec child st).1) →
  table ∉ table_names (tables st0) →
  keeps (frame st0) (construct_columns rec table items).
Proof.
  intros Hrec Hnew. induction items as [|[name [ty|child]] items IH]; simpl.
  - apply keeps_ret.
  - apply keeps_bind; [apply keeps_lift|]. intros c.
    apply keeps_bind; [by apply keeps_append_new|]. done.
  - apply keeps_bind.
    { intros st HI. eapply frame_trans; [done | apply Hrec]. }
    intros _. apply keeps_bind; [apply keeps_deref|]. intros child_def.
    apply keeps_bind; [apply keeps_construct_foreign_key|]. done.
Qed.

Lemma key_column_frame r table_def st :
  defs st !! r = Some table_def → frame st (key_column r table_def st).1.
Proof.
  intros Hr. unfold key_column.
  destruct (TableDefinition.primary_key table_def) as [pk|] eqn:Hpk;
    [|apply frame_refl].
  destruct (dict_get pk _) as [column_type|]; [|apply frame_refl].
  unfold bind, lift. destruct (construct_column pk column_type) as [c|e];
    [|apply frame_refl].
  unfold del_column. rewrite Hr. simpl.
  split; [|apply grows_by_refl]. simpl. intros r'.
  destruct (decide (r = r')) as [<-|Hne].
  - rewrite lookup_insert_eq, Hr. constructor. unfold def_step. simpl. eauto 10.
  - rewrite lookup_insert_ne by done. apply defs_step_refl.
Qed.

(** Whatever its outcome, a call of [construct_table] changes the
    definitions by deleting designated key entries only, and gives the
    tables that were registered before nothing but foreign keys. *)
Lemma construct_table_frame fuel r st : frame st (construct_table fuel r st).1.
Proof.
  revert r st. induction fuel as [|fuel IH]; intros r st; [apply frame_refl|].
  simpl. unfold bind at 1, deref.
  destruct (defs st !! r) as [table_def|] eqn:Hr; [|apply frame_refl].
  unfold bind at 1, get_tables.
  destruct (has_table _ _) eqn:Hhas; [apply frame_refl|].
  apply has_table_false in Hhas.
  unfold bind at 1. pose proof (key_column_frame _ _ _ Hr) as Hkey.
  destruct (key_column r table_def st) as [st1 [primary_key|e]]; [|done].
  simpl in Hkey. unfold bind at 1, new_table.
  apply keeps_bind; [apply keeps_deref|..].
  - intros table_def'. apply keeps_construct_columns; [apply IH | done].
  - destruct Hkey as [Hd Ht]. split; [done|]. simpl.
    eapply grows_by_trans; [done | apply grows_by_new_table].
Qed.
End BuilderKeeps.

(** ** Successful runs, step by step *)

Lemma bind_Return {A B} (m : M A) (k : A → M B) st st' b :
  bind m k st = (st', Return b) ↔
  ∃ a st1, m st = (st1, Return a) ∧ k a st1 = (st', Return b).
Proof.
  unfold bind. destruct (m st) as [st1 [a|e]]; split.
  - eauto.
  - by intros (a' & st1' & [= <- <-] & ?).
  - done.
  - by intros (a' & st1' & [=] & ?).
Qed.

Lemma keeps_run {A} (I : state → Prop) (m : M A) st st' x :
  keeps I m → I st → m st = (st', x) → I st'.
Proof. intros Hm HI Hrun. specialize (Hm st HI). by rewrite Hrun in Hm. Qed.

Lemma deref_Return r st st' d :
  deref r st = (st', Return d) ↔ st' = st ∧ defs st !! r = Some d.
Proof.
  unfold deref. destruct (defs st !! r); split;
    [by intros [= <- <-] | by intros [-> [= <-]] | done | by intros [_ ?]].
Qed.

Lemma the_table_Return nm st st' tbl :
  the_table nm st = (st', Return tbl) ↔ st' = st ∧ get_table nm (tables st) = Some tbl.
Proof.
  unfold the_table. destruct (get_table nm (tables st)); split;
    [by intros [= <- <-] | by intros [-> [= <-]] | done | by intros [_ ?]].
Qed.

Lemma existing_table_Return nm st st' tbl :
  existing_table nm st = (st', Return tbl) ↔
  st' = st ∧ get_table nm (tables st) = Some tbl.
Proof.
  unfold existing_table. destruct (get_table nm (tables st)); split;
    [by intros [= <- <-] | by intros [-> [= <-]] | done | by intros [_ ?]].
Qed.

Section BuilderRuns.
Variable types_dict : gmap string TypeEngine.

Abbreviation construct_column := (construct_column types_dict).
Abbreviation construct_columns := (construct_columns types_dict).
Abbreviation construct_table := (construct_table types_dict).
Abbreviation key_column := (key_column types_dict).
Abbreviation generate_metadata := (generate_metadata types_dict).

(** A table whose name is registered is not built again: the call
    returns at once and the store is as before. *)
Lemma construct_table_registered fuel r st d :
  defs st !! r = Some d →
  TableDefinition.name d ∈ table_names (tables st) →
  construct_table (S fuel) r st = (st, Return tt).
Proof.
  intros Hr Hin. simpl. unfold bind, deref, get_tables. rewrite Hr.
  apply has_table_true in Hin. by rewrite Hin.
Qed.

Lemma frame_registered st st' nm :
  frame st st' → nm ∈ table_names (tables st) → nm ∈ table_names (tables st').
Proof. intros [_ [Hpre _]] Hin. by eapply elem_of_prefix. Qed.

Lemma keeps_registered_construct_table fuel r nm :
  keeps (λ st, nm ∈ table_names (tables st)) (construct_table fuel r).
Proof. intros st Hin. eapply frame_registered; [apply construct_table_frame | done]. Qed.

Lemma keeps_registered_append_column nm table c :
  keeps (λ st, nm ∈ table_names (tables st)) (append_column table c).
Proof.
  unfold append_column. apply keeps_bind; [apply keeps_the_table|]. intros tbl.
  case_bool_decide; [apply keeps_raise|].
  intros st Hin. simpl. by rewrite table_names_add_column.
Qed.

Lemma keeps_registered_construct_foreign_key nm one many :
  keeps (λ st, nm ∈ table_names (tables st)) (construct_foreign_key one many).
Proof.
  unfold construct_foreign_key.
  apply keeps_bind; [apply keeps_the_table|]. intros tbl.
  destruct (Table.primary_key tbl) as [|pk ?]; [apply keeps_raise|].
  apply keeps_bind; [apply keeps_existing_table|]. intros many_table.
  destruct (find _ _); [|apply keeps_raise].
  apply keeps_registered_append_column.
Qed.

Lemma keeps_registered_construct_columns fuel nm table items :
  keeps (λ st, nm ∈ table_names (tables st))
        (construct_columns (construct_table fuel) table items).
Proof.
  induction items as [|[name [ty|child]] items IH]; simpl.
  - apply keeps_ret.
  - apply keeps_bind; [apply keeps_lift|]. intros c.
    apply keeps_bind; [apply keeps_registered_append_column|]. done.
  - apply keeps_bind; [apply keeps_registered_construct_table|]. intros _.
    apply keeps_bind; [apply keeps_deref|]. intros child_def.
    apply keeps_bind; [apply keeps_registered_construct_foreign_key|]. done.
Qed.

(** After a build that returned, the name of the definition is
    registered. *)
Lemma construct_table_registers fuel r st st' d :
  defs st !! r = Some d →
  construct_table fuel r st = (st', Return tt) →
  TableDefinition.name d ∈ table_names (tables st').
Proof.
  intros Hr Hrun. destruct fuel as [|fuel]; [done|].
  simpl in Hrun. apply bind_Return in Hrun as (d' & st1 & Hd & Hrun).
  apply deref_Return in Hd as [-> Hd]. assert (d' = d) as -> by congruence.
  apply bind_Return in Hrun as (ts & st1 & [= <- <-] & Hrun).
  destruct (has_table _ _) eqn:Hhas.
  { injection Hrun as <-. by apply has_table_true. }
  apply bind_Return in Hrun as (pk & st1 & Hkey & Hrun).
  apply bind_Return in Hrun as ([] & st2 & [= Hst2] & Hrun).
  eapply (keeps_run (λ st, _ ∈ table_names (tables st))); [| |exact Hrun].
  - apply keeps_bind; [apply keeps_deref|]. intros d2.
    apply keeps_registered_construct_columns.
  - subst st2. simpl. unfold table_names. rewrite fmap_app. set_solver.
Qed.

Lemma construct_table_fresh fuel r st d :
  defs st !! r = Some d →
  TableDefinition.name d ∉ table_names (tables st) →
  construct_table (S fuel) r st =
    (primary_key ← key_column r d;
     new_table (TableDefinition.name d) primary_key ;;
     table_def' ← deref r;
     construct_columns (construct_table fuel) (TableDefinition.name d)
       (TableDefinition.columns table_def')) st.
Proof.
  intros Hr Hnew. simpl. unfold bind at 1, deref. rewrite Hr.
  unfold bind at 1, get_tables. apply has_table_false in Hnew. by rewrite Hnew.
Qed.

Abbreviation key_of := (key_of types_dict).

Lemma key_column_Return r d st st1 c :
  defs st !! r = Some d →
  key_column r d st = (st1, Return c) ↔
  key_of d = Some c ∧ st1 = State (<[r := without_key d]> (defs st)) (tables st).
Proof.
  intros Hr. unfold key_column, key_of, without_key.
  destruct (TableDefinition.primary_key d) as [pk|] eqn:Hpk.
  - destruct (dict_get pk _) as [v|]; simpl; [|split; [done | by intros [? _]]].
    unfold bind, lift, construct_column.
    destruct (lookup_type types_dict v) as [ty|]; simpl;
      [|split; [done | by intros [? _]]].
    unfold del_column, ret. rewrite Hr. simpl. rewrite Hpk. split.
    + by intros [= <- <-].
    + by intros [[= <-] ->].
  - unfold ret. rewrite insert_id by done. destruct st as [h ts]. simpl. split.
    + by intros [= <- <-].
    + intros [Hc Hst]. injection Hc as <-. by rewrite Hst.
Qed.

(** ** The registry and the definitions across a build *)

(** C10.  The registry only grows.  Whatever the definition, the store
    and the outcome of the call (a return or an exception), the names
    registered before the call are still registered afterwards, in the
    same places, and the table found under each of them is the table that
    was there, with its columns kept and possibly followed by new ones:
    no entry is removed or replaced. *)
Theorem registry_only_grows fuel r st :
  table_names (tables st) `prefix_of`
    table_names (tables (construct_table fuel r st).1) ∧
  ∀ nm tbl, get_table nm (tables st) = Some tbl →
    ∃ tbl', get_table nm (tables (construct_table fuel r st).1) = Some tbl' ∧
      Table.name tbl' = nm ∧
      Table.columns tbl `prefix_of` Table.columns tbl'.
Proof.
  destruct (construct_table_frame types_dict fuel r st) as [_ [Hpre Hget]].
  split; [done|]. intros nm tbl H.
  destruct (Hget _ _ H) as (tbl' & more & H' & Hnm & Hcols & _).
  exists tbl'. split; [done|]. split.
  - rewrite Hnm. by eapply get_table_name.
  - rewrite Hcols. by apply prefix_app_r.
Qed.


(** C6.  Registration is idempotent per table name.  When the registry
    already holds the name of the definition, the call returns at once
    and leaves the registry and the definitions as they were; so a second
    build of a definition after a build that returned raises nothing and
    adds no table. *)
Theorem build_is_idempotent :
  (∀ fuel r st d, defs st !! r = Some d →
     TableDefinition.name d ∈ table_names (tables st) →
     construct_table (S fuel) r st = (st, Return tt)) ∧
  (∀ fuel fuel' r st st', construct_table fuel r st = (st', Return tt) →
     construct_table (S fuel') r st' = (st', Return tt)).
Proof.
  split; [apply construct_table_registered|].
  intros fuel fuel' r st st' Hrun.
  destruct (defs st !! r) as [d|] eqn:Hr.
  - pose proof (construct_table_frame types_dict fuel r st) as [Hdefs _].
    rewrite Hrun in Hdefs. specialize (Hdefs r). rewrite Hr in Hdefs.
    inversion Hdefs as [? d' (Hn & _) Heq Hr' |]; subst.
    apply (construct_table_registered _ _ _ d'); [done|]. rewrite Hn.
    by eapply construct_table_registers.
  - destruct fuel; [done|]. simpl in Hrun. unfold bind, deref in Hrun.
    by rewrite Hr in Hrun.
Qed.

(** C5.  The entry point does not take a forest.  A document that is a
    sequence of table definitions goes to [construct_table] as one
    object, and the call ends with [AttributeError]: no root is built
    and no registry is returned. *)
Theorem generate_metadata_rejects_sequence fuel heap items :
  generate_metadata fuel heap (DocList items) =
    Raise (AttributeError "'list' object has no attribute 'name'").
Proof. reflexivity. Qed.
End BuilderRuns.

(** ** The program on concrete documents *)

(** C1.  The document at the end of the module gives two tables:
    [people] with columns [id] (integer primary key), [firstName],
    [lastName], and [items] with columns [id] (integer primary key),
    [description] and a foreign key to [people.id].  The name of that last
    column is [people_people.id]: the program formats the column object,
    not its name. *)
Theorem generate_metadata_people :
  generate_metadata sqlalchemy_types 1000 example_heap (DocTable 0) =
    Return
      [people_table;
       Table.make "items"
         (Table.columns items_table ++
          [Column.make "people_people.id" NullType false (Some ("people", "id"))
             (Some "items")])].
Proof. vm_compute. reflexivity. Qed.

(** C2.  The foreign key that [people] gives to its nested table
    [items]: the column is appended to [items], it refers to
    [people.id], and its name is the name of the parent, an underscore and
    the printed form of the key column, [people.id]. *)
Theorem construct_foreign_key_people_items :
  (construct_foreign_key "people" "items"
     (State example_heap [people_table; items_table])).2 = Return tt ∧
  tables (construct_foreign_key "people" "items"
            (State example_heap [people_table; items_table])).1 =
    [people_table;
     Table.make "items"
       (Table.columns items_table ++
        [Column.make ("people" +:+ "_" +:+ "people.id") NullType false
           (Some ("people", "id")) (Some "items")])].
Proof. split; vm_compute; reflexivity. Qed.

(** C4.  A definition that designates its primary key gives a table in
    which no column is flagged as primary key: the designated column is
    the first one, built like an ordinary column. *)
Theorem designated_key_is_not_flagged :
  generate_metadata sqlalchemy_types 1000 accounts_heap (DocTable 0) =
    Return
      [Table.make "accounts"
         [Column.make "number" (Instance "Integer") false None (Some "accounts");
          Column.make "owner" (Instance "String") false None (Some "accounts")]] ∧
  ∀ ts, generate_metadata sqlalchemy_types 1000 accounts_heap (DocTable 0) = Return ts →
    ∀ tbl, tbl ∈ ts → Table.primary_key tbl = [].
Proof.
  split; [vm_compute; reflexivity|].
  intros ts H. vm_compute in H. injection H as <-.
  intros tbl ->%list_elem_of_singleton. reflexivity.
Qed.

(** ** The columns of a table that was built *)

Lemma append_column_Return nm c st st' :
  append_column nm c st = (st', Return tt) ↔
  ∃ tbl, get_table nm (tables st) = Some tbl ∧
    (Column.name c ∉ column_names tbl) ∧
    st' = State (defs st) (add_column nm c (tables st)).
Proof.
  unfold append_column, bind, the_table.
  destruct (get_table nm (tables st)) as [tbl|].
  2:{ split; [done|]. by intros (? & ? & _). }
  case_bool_decide as Hin; unfold raise; split.
  - done.
  - by intros (tbl' & [= <-] & ? & _).
  - intros [= <-]. eauto.
  - by intros (tbl' & _ & _ & ->).
Qed.

Lemma filter_foreign_keys (cs : list Column.t) :
  Forall is_foreign_key cs → filter (λ c, Column.foreign_key c = None) cs = [].
Proof.
  induction 1 as [|c cs [fk Hfk] _ IH]; [done|].
  rewrite filter_cons, decide_False by congruence. done.
Qed.

Lemma key_of_name types_dict d key :
  key_of types_dict d = Some key →
  Column.name key = default "id" (TableDefinition.primary_key d).
Proof.
  unfold key_of. destruct (TableDefinition.primary_key d) as [pk|]; simpl.
  - destruct (dict_get pk _) as [v|]; [|done].
    destruct (lookup_type types_dict v); [|done]. by intros [= <-].
  - by intros [= <-].
Qed.

Section BuilderColumns.
Variable types_dict : gmap string TypeEngine.

Abbreviation construct_column := (construct_column types_dict).
Abbreviation construct_columns := (construct_columns types_dict).
Abbreviation construct_table := (construct_table types_dict).
Abbreviation key_column := (key_column types_dict).
Abbreviation key_of := (key_of types_dict).
Abbreviation declared_columns := (declared_columns types_dict).

Lemma construct_column_no_foreign_key name v c :
  construct_column name v = Return c →
  Column.name c = name ∧ Column.foreign_key c = None ∧ Column.primary_key c = false.
Proof.
  unfold construct_column. destruct (lookup_type types_dict v); [|done].
  by intros [= <-].
Qed.

(** The loop of a table that returns has given its own table the
    declared columns, in the order of the mapping, and foreign keys
    between them. *)
Lemma construct_columns_own (rec : ref → M unit) table items :
  (∀ child st, frame st (rec child st).1) →
  ∀ st st' tbl,
    construct_columns rec table items st = (st', Return tt) →
    get_table table (tables st) = Some tbl →
    ∃ tbl' more, get_table table (tables st') = Some tbl' ∧
      Table.columns tbl' = Table.columns tbl ++ more ∧
      filter (λ c, Column.foreign_key c = None) more = declared_columns table items.
Proof.
  intros Hrec. induction items as [|[name [ty|child]] items IH];
    intros st st' tbl Hrun Hget; simpl in Hrun.
  - injection Hrun as <-. exists tbl, []. by rewrite app_nil_r.
  - apply bind_Return in Hrun as (c & st1 & Hc & Hrun).
    unfold lift in Hc. injection Hc as <- Hc.
    apply bind_Return in Hrun as ([] & st1 & Happ & Hrun).
    apply append_column_Return in Happ as (tbl0 & Hget0 & _ & ->).
    assert (tbl0 = tbl) as -> by congruence.
    destruct (IH _ _ _ Hrun (get_table_add_column_eq _ c _ _ Hget))
      as (tbl' & more & Hget' & Hcols & Hmore).
    exists tbl', (attach table c :: more). split; [done|]. split.
    + rewrite Hcols. simpl. by rewrite <- app_assoc.
    + destruct (construct_column_no_foreign_key _ _ _ Hc) as (_ & Hfk & _).
      rewrite filter_cons, decide_True by done. rewrite Hmore.
      unfold declared_columns. simpl. by rewrite Hc.
  - apply bind_Return in Hrun as ([] & st1 & Hchild & Hrun).
    apply bind_Return in Hrun as (child_def & st1' & Hd & Hrun).
    apply deref_Return in Hd as [-> Hd].
    apply bind_Return in Hrun as ([] & st2 & Hfk & Hrun).
    assert (frame st st2) as [_ [_ Hgrow]].
    { eapply frame_trans.
      - pose proof (Hrec child st) as H. by rewrite Hchild in H.
      - eapply keeps_run; [apply keeps_construct_foreign_key|apply frame_refl|done]. }
    destruct (Hgrow _ _ Hget) as (tbl2 & fks & Hget2 & _ & Hcols2 & Hfks).
    destruct (IH _ _ _ Hrun Hget2) as (tbl' & more & Hget' & Hcols & Hmore).
    exists tbl', (fks ++ more). split; [done|]. split.
    + by rewrite Hcols, Hcols2, app_assoc.
    + rewrite filter_app, filter_foreign_keys by done. simpl. rewrite Hmore.
      unfold declared_columns. simpl. done.
Qed.

(** The table of the definition that a call has built: its first column
    is the key, designated or [id], and the columns without foreign key
    that follow are the declared ones, in the order of the mapping. *)
Lemma construct_table_own_table fuel r st st' d :
  defs st !! r = Some d →
  TableDefinition.name d ∉ table_names (tables st) →
  construct_table fuel r st = (st', Return tt) →
  ∃ key tbl rest,
    key_of d = Some key ∧
    Column.name key = default "id" (TableDefinition.primary_key d) ∧
    get_table (TableDefinition.name d) (tables st') = Some tbl ∧
    Table.columns tbl = attach (TableDefinition.name d) key :: rest ∧
    filter (λ c, Column.foreign_key c = None) rest =
      declared_columns (TableDefinition.name d)
        (TableDefinition.columns (without_key d)).
Proof.
  intros Hr Hnew Hrun. destruct fuel as [|fuel]; [done|].
  rewrite (construct_table_fresh _ _ _ _ _ Hr Hnew) in Hrun.
  apply bind_Return in Hrun as (key & st1 & Hkey & Hrun).
  apply (key_column_Return _ _ _ _ _ _ Hr) in Hkey as [Hkey ->].
  apply bind_Return in Hrun as ([] & st2 & [= <-] & Hrun).
  apply bind_Return in Hrun as (d2 & st2 & Hd2 & Hrun).
  apply deref_Return in Hd2 as [-> Hd2]. simpl in Hd2.
  rewrite lookup_insert_eq in Hd2. injection Hd2 as <-.
  match type of Hrun with construct_columns _ _ _ ?s = _ =>
    assert (get_table (TableDefinition.name d) (tables s) =
            Some (Table.make (TableDefinition.name d)
                    [attach (TableDefinition.name d) key])) as Hget0
  end.
  { simpl. rewrite get_table_app_r by (by apply get_table_None).
    simpl. by rewrite decide_True. }
  destruct (construct_columns_own _ _ _ (construct_table_frame types_dict fuel)
              _ _ _ Hrun Hget0) as (tbl & more & Hget & Hcols & Hmore).
  exists key, tbl, more. repeat split; try done.
  by eapply key_of_name.
Qed.

(** ** A column of unknown type *)

Lemma string_app_assoc (s1 s2 s3 : string) : (s1 +:+ s2) +:+ s3 = s1 +:+ s2 +:+ s3.
Proof.
  induction s1 as [|a s1 IH]; [reflexivity|]. exact (f_equal (String a) IH).
Qed.

Lemma unknown_type_message_mentions column_type name :
  mentions (unknown_type_message column_type name) column_type ∧
  mentions (unknown_type_message column_type name) name.
Proof.
  unfold unknown_type_message. split.
  - exists ("Unknown type " +:+ dquote),
      (dquote +:+ " in column " +:+ dquote +:+ name +:+ dquote).
    symmetry. apply string_app_assoc.
  - exists ("Unknown type " +:+ dquote +:+ column_type +:+ dquote +:+
            " in column " +:+ dquote), dquote.
    symmetry. by repeat (rewrite string_app_assoc; try done).
Qed.

Lemma get_table_last table ts cols :
  table ∉ table_names ts →
  get_table table (ts ++ [Table.make table cols]) = Some (Table.make table cols).
Proof.
  intros Hnew. rewrite get_table_app_r by (by apply get_table_None).
  simpl. by rewrite decide_True.
Qed.

Lemma add_column_last table c ts cols :
  table ∉ table_names ts →
  add_column table c (ts ++ [Table.make table cols]) =
    ts ++ [Table.make table (cols ++ [attach table c])].
Proof.
  unfold table_names. induction ts as [|t ts IH]; csimpl; intros Hnew.
  - by rewrite decide_True.
  - apply not_elem_of_cons in Hnew as [Hne Hnew].
    rewrite decide_False by done. by rewrite IH.
Qed.

Lemma construct_column_known name v ty :
  lookup_type types_dict v = Some ty →
  construct_column name v = Return (Column.make name ty false None None).
Proof. intros H. unfold construct_column. by rewrite H. Qed.

Lemma declared_columns_cons_known table name v ty items :
  lookup_type types_dict v = Some ty →
  declared_columns table ((name, v) :: items) =
    attach table (Column.make name ty false None None) :: declared_columns table items.
Proof.
  intros H. unfold declared_columns. simpl.
  by rewrite (construct_column_known _ _ _ H).
Qed.

(** Entries that hold type names of the catalog, with names that the
    table does not have yet, each give the table one column. *)
Lemma construct_columns_plain (rec : ref → M unit) table before rest h ts cols :
  table ∉ table_names ts →
  Forall (λ kv, is_Some (lookup_type types_dict kv.2)) before →
  NoDup ((Column.name <$> cols) ++ before.*1) →
  construct_columns rec table (before ++ rest)
      (State h (ts ++ [Table.make table cols])) =
    construct_columns rec table rest
      (State h (ts ++ [Table.make table (cols ++ declared_columns table before)])).
Proof.
  intros Hnew Hknown. revert cols.
  induction Hknown as [|[name v] before [ty Hty] _ IH]; intros cols Hdup.
  - simpl. by rewrite app_nil_r.
  - simpl in Hty. destruct v as [typeName|child]; [|done].
    rewrite (declared_columns_cons_known _ _ _ _ _ Hty).
    change (construct_columns rec table (((name, ColumnSpec typeName) :: before) ++ rest))
      with (c ← lift (construct_column name (ColumnSpec typeName));
            append_column table c ;;
            construct_columns rec table (before ++ rest)).
    rewrite (construct_column_known _ _ _ Hty).
    unfold bind at 1, lift. unfold bind at 1, append_column.
    unfold bind at 1, the_table. simpl.
    rewrite (get_table_last _ _ _ Hnew). simpl.
    apply NoDup_app in Hdup as (Hcols & Hdisj & Hbefore).
    rewrite bool_decide_eq_false_2.
    2:{ intros Hin. apply (Hdisj _ Hin). csimpl. apply list_elem_of_here. }
    cbn [defs tables]. rewrite (add_column_last _ _ _ _ Hnew).
    rewrite IH.
    + by rewrite <- app_assoc.
    + rewrite fmap_app. csimpl. rewrite <- app_assoc. simpl.
      apply NoDup_app. split; [done|]. split; [|done].
      intros x Hx. by apply Hdisj.
Qed.

End BuilderColumns.

(** ** Instances *)



(** ** Depth of the recursion *)

Lemma elem_of_def_names nm h :
  nm ∈ def_names h ↔ ∃ r d, h !! r = Some d ∧ TableDefinition.name d = nm.
Proof. unfold def_names. apply elem_of_map_to_set. Qed.

Lemma elem_of_registered_names nm ts :
  nm ∈ registered_names ts ↔ nm ∈ table_names ts.
Proof. unfold registered_names. apply elem_of_list_to_set. Qed.

Lemma defs_step_names h h' : defs_step h h' → def_names h' = def_names h.
Proof.
  intros Hstep. apply set_eq. intros nm. rewrite !elem_of_def_names. split.
  - intros (r & d' & Hr & <-). specialize (Hstep r). rewrite Hr in Hstep.
    inversion Hstep as [d ? (Hn & _) |]; subst. by exists r, d.
  - intros (r & d & Hr & <-). specialize (Hstep r). rewrite Hr in Hstep.
    inversion Hstep as [? d' (Hn & _) |]; subst. by exists r, d'.
Qed.

(** The names that wait for their table only get fewer. *)
Lemma frame_pending st st' : frame st st' → pending st' ⊆ pending st.
Proof.
  intros [Hdefs [Hpre _]]. unfold pending. rewrite (defs_step_names _ _ Hdefs).
  intros nm. rewrite !elem_of_difference, !elem_of_registered_names.
  intros [? Hnot]. split; [done|]. intros Hin. apply Hnot. by eapply elem_of_prefix.
Qed.

Section Avoids.
Context {A B : Type} (I : state → Prop) (e : exn).

Lemma avoids_ret (a : A) : avoids I e (ret a).
Proof. by intros st _. Qed.

Lemma avoids_raise e' : e' ≠ e → avoids I e (raise (A:=A) e').
Proof. intros Hne st _. simpl. congruence. Qed.

Lemma avoids_bind (m : M A) (k : A → M B) :
  keeps I m → avoids I e m → (∀ a, avoids I e (k a)) → avoids I e (bind m k).
Proof.
  intros Hkeep Hm Hk st HI. unfold bind.
  specialize (Hkeep st HI). specialize (Hm st HI).
  destruct (m st) as [st' [a|e']]; simpl in *; [by apply Hk|].
  intros [= ->]. by apply Hm.
Qed.
End Avoids.

Lemma avoids_deref I e r : e ≠ NoSuchObject → avoids I e (deref r).
Proof.
  intros Hne st _. unfold deref. destruct (defs st !! r); simpl; congruence.
Qed.

Lemma avoids_the_table I e nm : e ≠ NoSuchObject → avoids I e (the_table nm).
Proof.
  intros Hne st _. unfold the_table. destruct (get_table nm (tables st)); simpl; congruence.
Qed.

Lemma avoids_existing_table I nm : avoids I RecursionError (existing_table nm).
Proof.
  intros st _. unfold existing_table. by destruct (get_table nm (tables st)).
Qed.

Lemma avoids_append_column I nm c : avoids I RecursionError (append_column nm c).
Proof.
  unfold append_column. apply avoids_bind;
    [apply keeps_the_table | by apply avoids_the_table |].
  intros tbl. case_bool_decide; [by apply avoids_raise | by intros st _].
Qed.

Lemma keeps_pending_append_column fuel nm c :
  keeps (λ st, size (pending st) < fuel) (append_column nm c).
Proof.
  unfold append_column. apply keeps_bind; [apply keeps_the_table|].
  intros tbl. case_bool_decide; [apply keeps_raise|].
  intros st Hst. unfold pending in *. simpl.
  unfold registered_names. by rewrite table_names_add_column.
Qed.

Lemma defs_step_without_key h r d :
  h !! r = Some d → defs_step h (<[r := without_key d]> h).
Proof.
  intros Hr r'. destruct (decide (r = r')) as [<-|Hne].
  - rewrite lookup_insert_eq, Hr. constructor. unfold def_step, without_key.
    destruct (TableDefinition.primary_key d) as [pk|] eqn:Hpk; simpl; eauto 10.
  - rewrite lookup_insert_ne by done. apply defs_step_refl.
Qed.

Section BuilderDepth.
Variable types_dict : gmap string TypeEngine.

Abbreviation construct_columns := (construct_columns types_dict).
Abbreviation construct_table := (construct_table types_dict).
Abbreviation key_column := (key_column types_dict).
Abbreviation bounded fuel := (λ st : state, size (pending st) < fuel).

Lemma keeps_pending_construct_foreign_key fuel one many :
  keeps (bounded fuel) (construct_foreign_key one many).
Proof.
  intros st Hst. eapply Nat.le_lt_trans; [|exact Hst].
  apply subseteq_size, frame_pending.
  eapply (keeps_construct_foreign_key st); apply frame_refl.
Qed.

Lemma keeps_pending_construct_table fuel fuel' r :
  keeps (bounded fuel) (construct_table fuel' r).
Proof.
  intros st Hst. eapply Nat.le_lt_trans; [|exact Hst].
  apply subseteq_size, frame_pending, construct_table_frame.
Qed.

Lemma avoids_construct_foreign_key I one many :
  avoids I RecursionError (construct_foreign_key one many).
Proof.
  unfold construct_foreign_key. apply avoids_bind;
    [apply keeps_the_table | by apply avoids_the_table |].
  intros tbl. destruct (Table.primary_key tbl) as [|pk ?]; [by apply avoids_raise|].
  apply avoids_bind; [apply keeps_existing_table | apply avoids_existing_table |].
  intros many_table. destruct (find _ _); [|by apply avoids_raise].
  apply avoids_append_column.
Qed.

Lemma avoids_construct_columns fuel table items :
  (∀ child, avoids (bounded fuel) RecursionError (construct_table fuel child)) →
  avoids (bounded fuel) RecursionError
    (construct_columns (construct_table fuel) table items).
Proof.
  intros Hrec. induction items as [|[name [ty|child]] items IH]; simpl.
  - apply avoids_ret.
  - apply avoids_bind; [apply keeps_lift| |].
    + intros st _. unfold lift, construct_column. simpl.
      by destruct (types_dict !! ty).
    + intros c. apply avoids_bind;
        [apply keeps_pending_append_column | apply avoids_append_column | done].
  - apply avoids_bind; [apply keeps_pending_construct_table | apply Hrec |].
    intros _. apply avoids_bind; [apply keeps_deref | by apply avoids_deref |].
    intros child_def. apply avoids_bind;
      [apply keeps_pending_construct_foreign_key
      | apply avoids_construct_foreign_key | done].
Qed.

Lemma key_column_not_RecursionError r d st :
  (key_column r d st).2 ≠ Raise RecursionError.
Proof.
  unfold key_column. destruct (TableDefinition.primary_key d) as [pk|]; [|done].
  destruct (dict_get pk _) as [v|]; [|done].
  unfold bind, lift, construct_column.
  destruct (lookup_type types_dict v); [|done].
  unfold del_column. by destruct (defs st !! r).
Qed.

(** The recursion is no deeper than the number of names that wait for a
    table: with more fuel than that, [construct_table] does not run out
    of it, whatever the graph of definitions, cycles included. *)
Lemma construct_table_depth fuel r :
  avoids (bounded fuel) RecursionError (construct_table fuel r).
Proof.
  revert r. induction fuel as [|fuel IH]; intros r st Hst; [simpl in Hst; lia|].
  destruct (defs st !! r) as [d|] eqn:Hr.
  2:{ simpl. unfold bind, deref. by rewrite Hr. }
  destruct (decide (TableDefinition.name d ∈ table_names (tables st))) as [Hin|Hnew].
  { by rewrite (construct_table_registered _ _ _ _ _ Hr Hin). }
  rewrite (construct_table_fresh _ _ _ _ _ Hr Hnew). unfold bind at 1.
  pose proof (key_column_not_RecursionError r d st) as Hkey.
  destruct (key_column r d st) as [st1 [key|e]] eqn:Hrun.
  2:{ simpl in *. intros [= ->]. by apply Hkey. }
  apply (key_column_Return _ _ _ _ _ _ Hr) in Hrun as [_ ->].
  unfold bind at 1, new_table. cbn [defs tables].
  apply avoids_bind with (I := bounded fuel).
  - apply keeps_deref.
  - by apply avoids_deref.
  - intros d2. by apply avoids_construct_columns.
  - match goal with |- size (pending ?s) < _ => set (st2 := s) end.
    assert (size (pending st2) < size (pending st)) as Hlt; [|simpl; lia].
    apply subset_size. split.
    + apply frame_pending. split; [|apply grows_by_new_table].
      by apply defs_step_without_key.
    + intros Hsub. specialize (Hsub (TableDefinition.name d)).
      unfold pending in Hsub.
      rewrite !elem_of_difference, !elem_of_registered_names in Hsub.
      destruct Hsub as [_ Hnot].
      * split; [|done]. apply elem_of_def_names. eauto.
      * apply Hnot. subst st2. simpl. unfold table_names. rewrite fmap_app.
        apply elem_of_app. right. apply list_elem_of_here.
Qed.
End BuilderDepth.

(** ** The foreign key of a nested table, and a table nested in itself *)

Lemma construct_foreign_key_appends one_table many_name h ts one key keys target many :
  get_table one_table ts = Some one →
  Table.primary_key one = key :: keys →
  get_table many_name ts = Some many →
  find (λ c, bool_decide (Column.name c = Column.name key)) (Table.columns one) =
    Some target →
  Column.name (foreign_key_column one key target) ∉ column_names many →
  construct_foreign_key one_table many_name (State h ts) =
    (State h (add_column many_name (foreign_key_column one key target) ts), Return tt).
Proof.
  intros Hone Hkey Hmany Hfind Hfresh.
  unfold construct_foreign_key, bind, the_table, existing_table. cbn [tables].
  rewrite Hone, Hkey. cbn [tables]. rewrite Hmany, Hfind.
  unfold append_column, bind, the_table. cbn [tables defs].
  rewrite (get_table_name _ _ _ Hmany), Hmany.
  by rewrite bool_decide_eq_false_2.
Qed.

Section BuilderSelf.
Variable types_dict : gmap string TypeEngine.

Abbreviation construct_columns := (construct_columns types_dict).
Abbreviation construct_table := (construct_table types_dict).
Abbreviation declared_columns := (declared_columns types_dict).
Abbreviation known := (λ kv : string * value, is_Some (lookup_type types_dict kv.2)).

Lemma declared_columns_names table items :
  Forall known items → Column.name <$> declared_columns table items = items.*1.
Proof.
  induction 1 as [|[name v] items [ty Hty] _ IH]; [done|].
  rewrite (declared_columns_cons_known _ _ _ _ _ _ Hty). csimpl. by rewrite IH.
Qed.

Lemma declared_columns_no_key table items :
  filter (λ c, Column.primary_key c = true) (declared_columns table items) = [].
Proof.
  unfold declared_columns. induction items as [|[name v] items IH]; [done|]. simpl.
  destruct (construct_column types_dict name v) as [c|e] eqn:Hc; [|done].
  apply construct_column_no_foreign_key in Hc as (_ & _ & Hc).
  rewrite filter_cons, decide_False; [done|]. simpl. by rewrite Hc.
Qed.

Lemma construct_columns_nested (rec : ref → M unit) table name child items :
  construct_columns rec table ((name, Nested child) :: items) =
    (rec child ;;
     child_def ← deref child;
     construct_foreign_key table (TableDefinition.name child_def) ;;
     construct_columns rec table items).
Proof. reflexivity. Qed.

Lemma construct_columns_plain_all (rec : ref → M unit) table items h ts cols :
  table ∉ table_names ts →
  Forall known items →
  NoDup ((Column.name <$> cols) ++ items.*1) →
  construct_columns rec table items (State h (ts ++ [Table.make table cols])) =
    (State h (ts ++ [Table.make table (cols ++ declared_columns table items)]),
     Return tt).
Proof.
  intros Hnew Hknown Hdup. rewrite <- (app_nil_r items) at 1.
  by rewrite construct_columns_plain.
Qed.

Lemma filter_named_new table (ts : list Table.t) :
  table ∉ table_names ts → filter (λ t, Table.name t = table) ts = [].
Proof.
  unfold table_names. induction ts as [|t ts IH]; [done|]. csimpl.
  intros [Hne Hnew]%not_elem_of_cons.
  rewrite filter_cons, decide_False by done. auto.
Qed.

(** A definition without a designated key, nested in itself through one
    entry, its other entries holding known type names: the build
    returns, with no more than two levels of recursion, and registers one
    table, whose columns are the key [id], the declared columns, and,
    at the place of the nested entry, a foreign key to its own [id]. *)
Lemma self_reference_builds fuel r st d before key child child_def after :
  defs st !! r = Some d →
  TableDefinition.primary_key d = None →
  TableDefinition.name d ∉ table_names (tables st) →
  TableDefinition.columns d = before ++ (key, Nested child) :: after →
  defs st !! child = Some child_def →
  TableDefinition.name child_def = TableDefinition.name d →
  Forall known before →
  Forall known after →
  NoDup ("id" :: before.*1 ++
         Column.name (self_foreign_key (TableDefinition.name d)) :: after.*1) →
  construct_table (S (S fuel)) r st =
    (State (defs st)
       (tables st ++
        [Table.make (TableDefinition.name d)
           (attach (TableDefinition.name d) id_column ::
            declared_columns (TableDefinition.name d) before ++
            attach (TableDefinition.name d)
              (self_foreign_key (TableDefinition.name d)) ::
            declared_columns (TableDefinition.name d) after)]),
     Return tt).
Proof.
  intros Hr Hpk Hnew Hcols Hchild Hname Hbefore Hafter Hdup.
  destruct st as [h ts]. cbn [defs tables] in *.
  set (table := TableDefinition.name d) in *.
  apply NoDup_cons in Hdup as [Hid Hdup].
  apply NoDup_app in Hdup as (Hdup_before & Hdisj & Hdup_after).
  apply NoDup_cons in Hdup_after as [Hfk_after Hdup_after].
  rewrite not_elem_of_app, not_elem_of_cons in Hid. destruct Hid as (Hid_before & Hid_fk & Hid_after).
  rewrite (construct_table_fresh types_dict _ r (State h ts) d Hr Hnew).
  unfold bind at 1.
  assert (key_of types_dict d = Some id_column) as Hkey.
  { unfold key_of. by rewrite Hpk. }
  assert (without_key d = d) as Hd.
  { unfold without_key. by rewrite Hpk. }
  rewrite (proj2 (key_column_Return types_dict r d (State h ts) _ id_column Hr)
             (conj Hkey eq_refl)).
  cbn [defs tables]. rewrite Hd, (insert_id _ _ _ Hr).
  unfold bind at 1, new_table. cbn [defs tables].
  unfold bind at 1, deref. cbn [defs]. rewrite Hr, Hcols. fold table.
  rewrite construct_columns_plain; [|done|done|by constructor].
  rewrite construct_columns_nested. unfold bind at 1.
  rewrite (construct_table_registered types_dict fuel child (State h _) child_def);
    [|done|].
  2:{ rewrite Hname. cbn [tables]. unfold table_names. rewrite fmap_app.
      apply elem_of_app. right. apply list_elem_of_here. }
  unfold bind at 1, deref. cbn [defs]. rewrite Hchild, Hname. fold table.
  unfold bind at 1.
  set (cols := [attach table id_column] ++ declared_columns table before).
  rewrite (construct_foreign_key_appends table table h _ (Table.make table cols)
             (attach table id_column) [] (attach table id_column)
             (Table.make table cols)).
  - rewrite (add_column_last _ _ _ _ Hnew).
    rewrite construct_columns_plain_all; [|done|done|].
    + subst cols. simpl. by rewrite <- app_assoc.
    + subst cols. rewrite !fmap_app. csimpl.
      rewrite (declared_columns_names _ _ Hbefore).
      constructor.
      { rewrite !not_elem_of_app, not_elem_of_cons, elem_of_nil. tauto. }
      rewrite <- app_assoc. simpl. apply NoDup_app. split; [done|]. split; [done|].
      by constructor.
  - by apply get_table_last.
  - unfold Table.primary_key. subst cols. cbn [Table.columns app].
    rewrite filter_cons, decide_True by done.
    by rewrite declared_columns_no_key.
  - by apply get_table_last.
  - subst cols. cbn [Table.columns app find]. by rewrite bool_decide_eq_true_2.
  - unfold column_names. subst cols. cbn [Table.columns]. csimpl.
    rewrite (declared_columns_names _ _ Hbefore).
    rewrite not_elem_of_cons. split.
    + intros Heq. apply Hid_fk. symmetry. exact Heq.
    + intros Hin. by apply (Hdisj _ Hin), list_elem_of_here.
Qed.

End BuilderSelf.

(** ** Every table that a build registers *)

Lemma without_key_name d :
  TableDefinition.name (without_key d) = TableDefinition.name d.
Proof. unfold without_key. by destruct (TableDefinition.primary_key d). Qed.

Lemma untouched_register st0 st r d cols :
  defs st !! r = Some d →
  untouched st0 st →
  untouched st0 (State (<[r := without_key d]> (defs st))
                   (tables st ++ [Table.make (TableDefinition.name d) cols])).
Proof.
  intros Hr Hst r0 d0 Hr0 Hn0. cbn [defs tables] in *.
  unfold table_names in Hn0. rewrite fmap_app, not_elem_of_app in Hn0.
  destruct Hn0 as [Hn0 Hlast]. destruct (decide (r = r0)) as [<-|Hne].
  - rewrite lookup_insert_eq in Hr0. injection Hr0 as <-.
    rewrite without_key_name in Hlast. exfalso. apply Hlast, list_elem_of_here.
  - rewrite lookup_insert_ne in Hr0 by done. by apply Hst.
Qed.

Lemma keeps_untouched_append_column st0 nm c :
  keeps (untouched st0) (append_column nm c).
Proof.
  unfold append_column. apply keeps_bind; [apply keeps_the_table|].
  intros tbl. case_bool_decide; [apply keeps_raise|].
  intros st Hst r d Hr Hn. simpl in Hr, Hn.
  rewrite table_names_add_column in Hn. by apply Hst.
Qed.

Lemma keeps_names_append_column names nm c :
  keeps (λ st, table_names (tables st) = names) (append_column nm c).
Proof.
  unfold append_column. apply keeps_bind; [apply keeps_the_table|].
  intros tbl. case_bool_decide; [apply keeps_raise|].
  intros st Hst. simpl. by rewrite table_names_add_column.
Qed.

Section ForeignKeyKeeps.
Variable P : state → Prop.
Hypothesis append_keeps : ∀ nm c, keeps P (append_column nm c).

Lemma keeps_construct_foreign_key_by one many :
  keeps P (construct_foreign_key one many).
Proof.
  unfold construct_foreign_key.
  apply keeps_bind; [apply keeps_the_table|]. intros tbl.
  destruct (Table.primary_key tbl) as [|pk ?]; [apply keeps_raise|].
  apply keeps_bind; [apply keeps_existing_table|]. intros many_table.
  destruct (find _ _); [|apply keeps_raise]. apply append_keeps.
Qed.
End ForeignKeyKeeps.

Lemma built_more types_dict h tbl tbl' more :
  built types_dict h tbl →
  Table.name tbl' = Table.name tbl →
  Table.columns tbl' = Table.columns tbl ++ more →
  Forall is_foreign_key more →
  built types_dict h tbl'.
Proof.
  intros (r & d & key & rest & Hr & Hn & Hk & Hkn & Hc & Hf) Hname Hcols Hfk.
  exists r, d, key, (rest ++ more). rewrite Hname. repeat split; try done.
  - by rewrite Hcols, Hc.
  - by rewrite filter_app, (filter_foreign_keys _ Hfk), app_nil_r.
Qed.

Section BuilderBuilt.
Variable types_dict : gmap string TypeEngine.

Abbreviation construct_columns := (construct_columns types_dict).
Abbreviation construct_table := (construct_table types_dict).
Abbreviation key_column := (key_column types_dict).
Abbreviation built := (built types_dict).

Lemma key_column_Raise r d st st1 e :
  key_column r d st = (st1, Raise e) → defs st !! r = Some d → st1 = st.
Proof.
  intros Hrun Hr. unfold key_column in Hrun.
  destruct (TableDefinition.primary_key d) as [pk|]; [|done].
  destruct (dict_get pk _) as [v|]; [|by injection Hrun].
  unfold bind, lift, construct_column in Hrun.
  destruct (lookup_type types_dict v); [|by injection Hrun].
  unfold del_column in Hrun. by rewrite Hr in Hrun.
Qed.

Lemma keeps_untouched_construct_columns st0 (rec : ref → M unit) table items :
  (∀ child, keeps (untouched st0) (rec child)) →
  keeps (untouched st0) (construct_columns rec table items).
Proof.
  intros Hrec. induction items as [|[name [ty|child]] items IH]; simpl.
  - apply keeps_ret.
  - apply keeps_bind; [apply keeps_lift|]. intros c.
    apply keeps_bind; [apply keeps_untouched_append_column | done].
  - apply keeps_bind; [apply Hrec|]. intros _.
    apply keeps_bind; [apply keeps_deref|]. intros child_def.
    apply keeps_bind; [|done].
    apply keeps_construct_foreign_key_by, keeps_untouched_append_column.
Qed.

(** A call leaves the definitions whose name it has not registered as
    they were. *)
Lemma construct_table_untouched fuel r st0 :
  keeps (untouched st0) (construct_table fuel r).
Proof.
  revert r. induction fuel as [|fuel IH]; intros r st Hst; [done|].
  destruct (defs st !! r) as [d|] eqn:Hr.
  2:{ simpl. unfold bind, deref. by rewrite Hr. }
  destruct (decide (TableDefinition.name d ∈ table_names (tables st))) as [Hin|Hnew].
  { by rewrite (construct_table_registered _ _ _ _ _ Hr Hin). }
  rewrite (construct_table_fresh _ _ _ _ _ Hr Hnew). unfold bind at 1.
  destruct (key_column r d st) as [st1 [key|e]] eqn:Hrun.
  - apply (key_column_Return _ _ _ _ _ _ Hr) in Hrun as [_ ->].
    unfold bind at 1, new_table. cbn [defs tables].
    apply keeps_bind; [apply keeps_deref| |by apply untouched_register].
    intros d2. by apply keeps_untouched_construct_columns.
  - by rewrite (key_column_Raise _ _ _ _ _ Hrun Hr).
Qed.

Lemma construct_foreign_key_names one many st :
  table_names (tables (construct_foreign_key one many st).1) = table_names (tables st).
Proof.
  apply (keeps_construct_foreign_key_by (λ s, table_names (tables s) = table_names (tables st)));
    [|done].
  intros nm c. apply keeps_names_append_column.
Qed.

(** Along the loop of the table [table], begun after the store [st0],
    the other tables registered since [st0] stay tables of definitions of
    [st0]. *)
Lemma construct_columns_built fuel st0 table items :
  (∀ r st st', construct_table fuel r st = (st', Return tt) →
     ∀ nm tbl, get_table nm (tables st') = Some tbl →
       nm ∉ table_names (tables st) → built (defs st) tbl) →
  ∀ s s',
    construct_columns (construct_table fuel) table items s = (s', Return tt) →
    untouched st0 s →
    (∀ nm tbl, get_table nm (tables s) = Some tbl →
       nm ∉ table_names (tables st0) → nm ≠ table → built (defs st0) tbl) →
    ∀ nm tbl, get_table nm (tables s') = Some tbl →
      nm ∉ table_names (tables st0) → nm ≠ table → built (defs st0) tbl.
Proof.
  intros Hrec. induction items as [|[name [ty|child]] items IH];
    intros s s' Hrun Hun HK; simpl in Hrun.
  - by injection Hrun as <-.
  - apply bind_Return in Hrun as (c & s0 & Hc & Hrun).
    unfold lift in Hc. injection Hc as <- Hc.
    apply bind_Return in Hrun as ([] & s1 & Happ & Hrun).
    apply (IH _ _ Hrun).
    + eapply keeps_run; [apply keeps_untouched_append_column|exact Hun|exact Happ].
    + apply append_column_Return in Happ as (tbl0 & _ & _ & ->).
      intros nm tbl Hget Hn0 HnT. cbn [tables] in Hget.
      rewrite get_table_add_column_ne in Hget by done. by eapply HK.
  - apply bind_Return in Hrun as ([] & s1 & Hchild & Hrun).
    apply bind_Return in Hrun as (child_def & s1' & Hd & Hrun).
    apply deref_Return in Hd as [-> Hd].
    apply bind_Return in Hrun as ([] & s2 & Hfk & Hrun).
    assert (untouched st0 s1) as Hun1.
    { eapply keeps_run; [apply construct_table_untouched|exact Hun|exact Hchild]. }
    assert (∀ nm tbl, get_table nm (tables s1) = Some tbl →
              nm ∉ table_names (tables st0) → nm ≠ table → built (defs st0) tbl) as HK1.
    { intros nm tbl1 Hget1 Hn0 HnT.
      destruct (decide (nm ∈ table_names (tables s))) as [Hin|Hnew].
      - apply get_table_is_Some in Hin as [tbl Hget].
        pose proof (construct_table_frame types_dict fuel child s) as [_ [_ Hgrow]].
        rewrite Hchild in Hgrow. cbn [fst] in Hgrow.
        destruct (Hgrow _ _ Hget) as (tbl' & more & Hget' & Hname & Hcols & Hfks).
        assert (tbl' = tbl1) as -> by congruence.
        eapply built_more; [by eapply HK|done..].
      - destruct (Hrec _ _ _ Hchild _ _ Hget1 Hnew)
          as (r0 & d0 & key & rest & Hr0 & Hname0 & Hrest).
        exists r0, d0, key, rest. split; [|done].
        apply Hun; [done|]. rewrite Hname0. by rewrite (get_table_name _ _ _ Hget1). }
    apply (IH _ _ Hrun).
    + eapply keeps_run; [|exact Hun1|exact Hfk].
      apply keeps_construct_foreign_key_by, keeps_untouched_append_column.
    + intros nm tbl2 Hget2 Hn0 HnT.
      assert (nm ∈ table_names (tables s1)) as Hin.
      { pose proof (construct_foreign_key_names table
                      (TableDefinition.name child_def) s1) as Hnames.
        rewrite Hfk in Hnames. cbn [fst] in Hnames. rewrite <- Hnames. apply get_table_is_Some. eauto. }
      apply get_table_is_Some in Hin as [tbl1 Hget1].
      assert (frame s1 s2) as [_ [_ Hgrow]].
      { eapply keeps_run; [apply keeps_construct_foreign_key|apply frame_refl|exact Hfk]. }
      destruct (Hgrow _ _ Hget1) as (tbl' & more & Hget' & Hname & Hcols & Hfks).
      assert (tbl' = tbl2) as -> by congruence.
      eapply built_more; [by eapply HK1|done..].
Qed.

End BuilderBuilt.


(** A second build of the document of the module changes nothing. *)
Lemma build_is_idempotent_witness :
  construct_table sqlalchemy_types 1
    0 (construct_table sqlalchemy_types 2 0 (State example_heap [])).1 =
  ((construct_table sqlalchemy_types 2 0 (State example_heap [])).1, Return tt).
Proof.
  apply (proj2 (build_is_idempotent sqlalchemy_types) 2 0 0 (State example_heap [])).
  vm_compute. reflexivity.
Defined.

(** ** A definition nested in itself, in general *)

Lemma bind_assoc {A B C} (m : M A) (k : A → M B) (k' : B → M C) st :
  bind (bind m k) k' st = bind m (λ a, bind (k a) k') st.
Proof. unfold bind. by destruct (m st) as [st1 [a|e]]. Qed.

Lemma bind_ext {A B} (m : M A) (k k' : A → M B) st :
  (∀ a st1, k a st1 = k' a st1) → bind m k st = bind m k' st.
Proof. intros Hk. unfold bind. destruct (m st) as [st1 [a|e]]; [apply Hk | done]. Qed.

Lemma construct_foreign_key_Return one_table many_name st st' :
  construct_foreign_key one_table many_name st = (st', Return tt) →
  ∃ one key keys many target,
    get_table one_table (tables st) = Some one ∧
    Table.primary_key one = key :: keys ∧
    get_table many_name (tables st) = Some many ∧
    find (λ c, bool_decide (Column.name c = Column.name key)) (Table.columns one) =
      Some target ∧
    st' = State (defs st)
            (add_column many_name (foreign_key_column one key target) (tables st)).
Proof.
  unfold construct_foreign_key. intros Hrun.
  apply bind_Return in Hrun as (one & st1 & Hone & Hrun).
  apply the_table_Return in Hone as [-> Hone].
  destruct (Table.primary_key one) as [|key keys] eqn:Hkey; [done|].
  apply bind_Return in Hrun as (many & st1 & Hmany & Hrun).
  apply existing_table_Return in Hmany as [-> Hmany].
  destruct (find _ _) as [target|] eqn:Hfind; [|done].
  apply append_column_Return in Hrun as (tbl & _ & _ & ->).
  exists one, key, keys, many, target.
  by rewrite (get_table_name _ _ _ Hmany).
Qed.

Section BuilderSelfGeneral.
Variable types_dict : gmap string TypeEngine.

Abbreviation construct_columns := (construct_columns types_dict).
Abbreviation construct_table := (construct_table types_dict).
Abbreviation known := (λ kv : string * value, is_Some (lookup_type types_dict kv.2)).

Lemma construct_columns_app (rec : ref → M unit) table xs ys st :
  construct_columns rec table (xs ++ ys) st =
    (construct_columns rec table xs ;; construct_columns rec table ys) st.
Proof.
  revert st. induction xs as [|[name [ty|child]] xs IH]; intros st.
  - done.
  - simpl. rewrite bind_assoc. apply bind_ext. intros c st1.
    rewrite bind_assoc. apply bind_ext. intros _ st2. apply IH.
  - simpl. rewrite bind_assoc. apply bind_ext. intros _ st1.
    rewrite bind_assoc. apply bind_ext. intros child_def st2.
    rewrite bind_assoc. apply bind_ext. intros _ st3. apply IH.
Qed.

(** Whenever the build of a definition without a designated key returns,
    each entry that nests a definition of the same name has given the
    table a foreign key to its own [id], whatever else the definition
    holds. *)
Lemma self_reference_own_key fuel r st st' d key child child_def :
  construct_table fuel r st = (st', Return tt) →
  defs st !! r = Some d →
  TableDefinition.primary_key d = None →
  TableDefinition.name d ∉ table_names (tables st) →
  (key, Nested child) ∈ TableDefinition.columns d →
  defs st !! child = Some child_def →
  TableDefinition.name child_def = TableDefinition.name d →
  ∃ tbl rest,
    get_table (TableDefinition.name d) (tables st') = Some tbl ∧
    Table.columns tbl = attach (TableDefinition.name d) id_column :: rest ∧
    attach (TableDefinition.name d) (self_foreign_key (TableDefinition.name d)) ∈ rest.
Proof.
  intros Hrun Hr Hpk Hnew Hin Hchild Hname. destruct fuel as [|fuel]; [done|].
  set (table := TableDefinition.name d) in *.
  rewrite (construct_table_fresh _ _ _ _ _ Hr Hnew) in Hrun.
  apply bind_Return in Hrun as (key0 & st1 & Hkey & Hrun).
  apply (key_column_Return _ _ _ _ _ _ Hr) in Hkey as [Hkey ->].
  assert (key0 = id_column) as ->.
  { unfold key_of in Hkey. rewrite Hpk in Hkey. by injection Hkey. }
  assert (without_key d = d) as Hd by (unfold without_key; by rewrite Hpk).
  rewrite Hd, (insert_id _ _ _ Hr) in Hrun.
  apply bind_Return in Hrun as ([] & st2 & [= <-] & Hrun).
  apply bind_Return in Hrun as (d2 & st2 & Hd2 & Hrun).
  apply deref_Return in Hd2 as [-> Hd2]. cbn [defs] in Hd2.
  assert (d2 = d) as -> by congruence. fold table in Hrun.
  apply list_elem_of_split in Hin as (pre & post & Hcols).
  rewrite Hcols, construct_columns_app in Hrun.
  apply bind_Return in Hrun as ([] & sa & Hpre & Hrun).
  set (st2 := State (defs st) (tables st ++ [Table.make table [attach table id_column]])) in *.
  assert (frame st st2) as Hframe2.
  { split; [apply defs_step_refl | apply grows_by_new_table]. }
  assert (frame st sa) as Hframea.
  { eapply keeps_run; [|exact Hframe2|exact Hpre].
    apply keeps_construct_columns; [apply construct_table_frame | done]. }
  destruct (construct_columns_own types_dict _ _ _ (construct_table_frame types_dict fuel)
              _ _ _ Hpre (get_table_last table _ _ Hnew))
    as (tbla & morea & Hgeta & Hcolsa & _).
  rewrite construct_columns_nested in Hrun.
  apply bind_Return in Hrun as ([] & s1 & Hrec & Hrun).
  apply bind_Return in Hrun as (cd1 & s1' & Hcd1 & Hrun).
  apply deref_Return in Hcd1 as [-> Hcd1].
  apply bind_Return in Hrun as ([] & s2 & Hfk & Hpost).
  assert (frame sa s1) as Hframe1.
  { pose proof (construct_table_frame types_dict fuel child sa) as H.
    by rewrite Hrec in H. }
  assert (TableDefinition.name cd1 = table) as Hname1.
  { destruct (frame_trans _ _ _ Hframea Hframe1) as [Hdefs _].
    specialize (Hdefs child). rewrite Hchild, Hcd1 in Hdefs.
    inversion Hdefs as [? ? (Hn & _) |]; subst. congruence. }
  destruct Hframe1 as [_ [_ Hgrow1]].
  destruct (Hgrow1 _ _ Hgeta) as (tbl1 & fks & Hget1 & Hnm1 & Hcols1 & _).
  rewrite Hname1 in Hfk.
  apply construct_foreign_key_Return in Hfk
    as (one & key1 & keys & many & target & Hone & Hkeys & Hmany & Hfind & ->).
  assert (one = tbl1) as -> by congruence.
  unfold Table.primary_key in Hkeys.
  rewrite Hcols1, Hcolsa in Hfind, Hkeys. cbn [Table.columns app] in Hfind, Hkeys.
  rewrite filter_cons, decide_True in Hkeys by done. injection Hkeys as <- _.
  cbn [find] in Hfind. rewrite bool_decide_eq_true_2 in Hfind by done.
  injection Hfind as <-.
  pose proof (get_table_add_column_eq table
                (foreign_key_column tbl1 (attach table id_column) (attach table id_column))
                _ _ Hget1) as Hget2.
  destruct (construct_columns_own types_dict _ _ _ (construct_table_frame types_dict fuel)
              _ _ _ Hpost Hget2)
    as (tbl' & morep & Hget' & Hcols' & _).
  cbn [Table.columns] in Hcols'.
  exists tbl', ((morea ++ fks) ++
                [attach table (foreign_key_column tbl1 (attach table id_column)
                                 (attach table id_column))] ++ morep).
  split; [done|]. split.
  - rewrite Hcols', Hcols1, Hcolsa. simpl. by rewrite <- !app_assoc.
  - apply elem_of_app. right. apply elem_of_app. left.
    unfold foreign_key_column. rewrite (get_table_name _ _ _ Hget1).
    apply list_elem_of_here.
Qed.

(** X13.  Cycles end, and a table nested in itself refers to itself.
    First, on any graph of definitions, however cyclic, the recursion is
    no deeper than the number of names that wait for a table: with more
    fuel than that the build never ends for lack of it.  Second, for a
    definition without a designated key that is nested in itself through
    one entry (the nested object carries the same name; it may be the
    very same object), its other entries holding known type names: the
    build returns, the registry gains exactly one table of that name, its
    key is [id], and at the place of the nested entry it has a foreign key
    to its own key.  Third, whatever else such a definition holds,
    whenever its build returns the table starts with the key [id] and
    has that foreign key. *)
Theorem self_reference_terminates :
  (∀ fuel r st, size (pending st) < fuel →
     (construct_table fuel r st).2 ≠ Raise RecursionError) ∧
  (∀ fuel r st d before key child child_def after,
     defs st !! r = Some d →
     TableDefinition.primary_key d = None →
     TableDefinition.name d ∉ table_names (tables st) →
     TableDefinition.columns d = before ++ (key, Nested child) :: after →
     defs st !! child = Some child_def →
     TableDefinition.name child_def = TableDefinition.name d →
     Forall known before →
     Forall known after →
     NoDup ("id" :: before.*1 ++
            Column.name (self_foreign_key (TableDefinition.name d)) :: after.*1) →
     let own := self_table types_dict (TableDefinition.name d) before after in
     construct_table (S (S fuel)) r st =
       (State (defs st) (tables st ++ [own]), Return tt) ∧
     filter (λ t, Table.name t = TableDefinition.name d) (tables st ++ [own]) = [own] ∧
     Table.primary_key own = [attach (TableDefinition.name d) id_column] ∧
     attach (TableDefinition.name d) (self_foreign_key (TableDefinition.name d))
       ∈ Table.columns own ∧
     Column.foreign_key (self_foreign_key (TableDefinition.name d)) =
       Some (TableDefinition.name d, Column.name id_column)) ∧
  (∀ fuel r st st' d key child child_def,
     construct_table fuel r st = (st', Return tt) →
     defs st !! r = Some d →
     TableDefinition.primary_key d = None →
     TableDefinition.name d ∉ table_names (tables st) →
     (key, Nested child) ∈ TableDefinition.columns d →
     defs st !! child = Some child_def →
     TableDefinition.name child_def = TableDefinition.name d →
     ∃ tbl rest,
       get_table (TableDefinition.name d) (tables st') = Some tbl ∧
       Table.columns tbl = attach (TableDefinition.name d) id_column :: rest ∧
       attach (TableDefinition.name d) (self_foreign_key (TableDefinition.name d))
         ∈ rest).
Proof.
  split; [intros fuel r st Hst; by apply construct_table_depth|].
  split; [|apply self_reference_own_key].
  intros fuel r st d before key child child_def after
    Hr Hpk Hnew Hcols Hchild Hname Hbefore Hafter Hdup own.
  split; [by eapply self_reference_builds|]. split; [|split; [|split]].
  - rewrite filter_app, (filter_named_new _ _ Hnew). simpl.
    by rewrite filter_cons, decide_True, filter_nil.
  - unfold Table.primary_key, own, self_table. cbn [Table.columns].
    rewrite filter_cons, decide_True by done.
    rewrite filter_app, declared_columns_no_key. simpl.
    rewrite filter_cons, decide_False by done.
    by rewrite declared_columns_no_key.
  - unfold own, self_table. cbn [Table.columns].
    apply elem_of_cons. right. apply elem_of_app. right. apply list_elem_of_here.
  - reflexivity.
Qed.
End BuilderSelfGeneral.

(** The definition [folder] holds itself under [children]. *)
Lemma self_reference_terminates_witness :
  (construct_table sqlalchemy_types 2 0 (State folder_heap [])).2 ≠
    Raise RecursionError ∧
  construct_table sqlalchemy_types 2 0 (State folder_heap []) =
    (State folder_heap
       [self_table sqlalchemy_types "folder"
          [("title", ColumnSpec "String")] [("size", ColumnSpec "Integer")]],
     Return tt).
Proof.
  split.
  - apply (proj1 (self_reference_terminates sqlalchemy_types) 2 0 (State folder_heap [])).
    vm_compute. lia.
  - apply (proj1 (proj2 (self_reference_terminates sqlalchemy_types)) 0 0
             (State folder_heap [])
             folder_def [("title", ColumnSpec "String")] "children" 0 folder_def
             [("size", ColumnSpec "Integer")]).
    + reflexivity.
    + reflexivity.
    + apply not_elem_of_nil.
    + reflexivity.
    + reflexivity.
    + reflexivity.
    + repeat constructor. by eexists.
    + repeat constructor. by eexists.
    + vm_compute. repeat constructor; intros H;
        repeat (inversion H as [|? ? ? H']; clear H; rename H' into H).
Defined.


(** ** Further properties of the builder *)

Section BuilderFlat.
Variable types_dict : gmap string TypeEngine.

Abbreviation construct_table := (construct_table types_dict).
Abbreviation declared_columns := (declared_columns types_dict).
Abbreviation key_of := (key_of types_dict).
Abbreviation known := (λ kv : string * value, is_Some (lookup_type types_dict kv.2)).

Lemma construct_table_flat fuel r st d key :
  defs st !! r = Some d →
  TableDefinition.name d ∉ table_names (tables st) →
  key_of d = Some key →
  Forall known (TableDefinition.columns (without_key d)) →
  NoDup (Column.name key :: (TableDefinition.columns (without_key d)).*1) →
  construct_table (S fuel) r st =
    (State (<[r := without_key d]> (defs st))
       (tables st ++
        [Table.make (TableDefinition.name d)
           (attach (TableDefinition.name d) key ::
            declared_columns (TableDefinition.name d)
              (TableDefinition.columns (without_key d)))]),
     Return tt).
Proof.
  intros Hr Hnew Hkey Hknown Hdup.
  rewrite (construct_table_fresh _ _ _ _ _ Hr Hnew). unfold bind at 1.
  rewrite (proj2 (key_column_Return types_dict r d st _ key Hr) (conj Hkey eq_refl)).
  unfold bind at 1, new_table. cbn [defs tables].
  unfold bind at 1, deref. cbn [defs tables]. rewrite lookup_insert_eq.
  by rewrite (construct_columns_plain_all types_dict).
Qed.

(** X1.  A definition without nested tables is built in one call.  When
    its name is not registered, its key column resolves and its other
    entries hold type names of the catalog under distinct column names
    that differ from the name of the key, the call returns; the registry
    gains one table, made of the key column and the declared columns in
    the order of the mapping, and the definition loses its designated key
    entry, nothing else. *)
Theorem flat_definition_builds fuel r st d key :
  defs st !! r = Some d →
  TableDefinition.name d ∉ table_names (tables st) →
  key_of d = Some key →
  Forall known (TableDefinition.columns (without_key d)) →
  NoDup (Column.name key :: (TableDefinition.columns (without_key d)).*1) →
  construct_table (S fuel) r st =
    (State (<[r := without_key d]> (defs st))
       (tables st ++
        [Table.make (TableDefinition.name d)
           (attach (TableDefinition.name d) key ::
            declared_columns (TableDefinition.name d)
              (TableDefinition.columns (without_key d)))]),
     Return tt).
Proof. apply construct_table_flat. Qed.

(** X2.  A designated key that cannot be built stops the call before
    anything is registered.  When the definition names a key that its
    columns do not hold, the call raises [KeyError] with that name; when
    the entry holds no type name of the catalog, it raises the
    unknown-type [KeyError]; in both cases the registry and the
    definitions are exactly as before. *)
Theorem unresolved_key_changes_nothing fuel r st d pk :
  defs st !! r = Some d →
  TableDefinition.name d ∉ table_names (tables st) →
  TableDefinition.primary_key d = Some pk →
  key_of d = None →
  construct_table (S fuel) r st =
    (st, Raise (KeyError
                  match dict_get pk (TableDefinition.columns d) with
                  | None => pk
                  | Some v => unknown_type_message (value_str v) pk
                  end)).
Proof.
  intros Hr Hnew Hpk Hkey.
  rewrite (construct_table_fresh _ _ _ _ _ Hr Hnew). unfold bind at 1.
  unfold key_of in Hkey. unfold key_column. rewrite Hpk in *.
  destruct (dict_get pk _) as [v|]; [|done].
  unfold bind, lift, construct_column.
  by destruct (lookup_type types_dict v).
Qed.
End BuilderFlat.

Lemma flat_definition_builds_witness :
  construct_table sqlalchemy_types 1 0 (State accounts_heap []) =
    (State (<[0 := without_key accounts_def]> accounts_heap)
       ([] ++
        [Table.make "accounts"
           (attach "accounts" (Column.make "number" (Instance "Integer") false None None) ::
            declared_columns sqlalchemy_types "accounts"
              (TableDefinition.columns (without_key accounts_def)))]),
     Return tt).
Proof.
  apply (flat_definition_builds sqlalchemy_types 0 0 (State accounts_heap [])
           accounts_def (Column.make "number" (Instance "Integer") false None None)).
  - reflexivity.
  - apply not_elem_of_nil.
  - reflexivity.
  - repeat constructor. by eexists.
  - vm_compute. repeat constructor; intros H;
      repeat (inversion H as [|? ? ? H']; clear H; rename H' into H).
Defined.

Lemma unresolved_key_changes_nothing_witness :
  construct_table sqlalchemy_types 1 0 (State ledger_heap []) =
    (State ledger_heap [], Raise (KeyError "number")).
Proof.
  apply (unresolved_key_changes_nothing sqlalchemy_types 0 0 (State ledger_heap [])
           ledger_def "number").
  - reflexivity.
  - apply not_elem_of_nil.
  - reflexivity.
  - reflexivity.
Defined.

(** ** The primary key of a registered table *)

Lemma filter_unflagged (cs : list Column.t) :
  Forall unflagged cs → filter (λ c, Column.primary_key c = true) cs = [].
Proof.
  induction 1 as [|c cs Hc _ IH]; [done|].
  rewrite filter_cons, decide_False; [done|]. unfold unflagged in Hc. congruence.
Qed.

Lemma grows_by_unflagged_primary_key ts ts' nm tbl :
  grows_by unflagged ts ts' →
  get_table nm ts = Some tbl →
  ∃ tbl', get_table nm ts' = Some tbl' ∧
    Table.primary_key tbl' = Table.primary_key tbl.
Proof.
  intros [_ Hgrow] Hget.
  destruct (Hgrow _ _ Hget) as (tbl' & more & Hget' & _ & Hcols & Hmore).
  exists tbl'. split; [done|]. unfold Table.primary_key.
  by rewrite Hcols, filter_app, (filter_unflagged _ Hmore), app_nil_r.
Qed.

Lemma keeps_unflagged_append_column ts0 nm c :
  Column.primary_key c = false →
  keeps (λ s, grows_by unflagged ts0 (tables s)) (append_column nm c).
Proof.
  intros Hc. unfold append_column. apply keeps_bind; [apply keeps_the_table|].
  intros tbl. case_bool_decide; [apply keeps_raise|].
  intros st Hst. simpl. eapply grows_by_trans; [exact Hst|].
  by apply grows_by_add_column.
Qed.

Lemma keeps_unflagged_construct_foreign_key ts0 one many :
  keeps (λ s, grows_by unflagged ts0 (tables s)) (construct_foreign_key one many).
Proof.
  unfold construct_foreign_key.
  apply keeps_bind; [apply keeps_the_table|]. intros tbl.
  destruct (Table.primary_key tbl) as [|pk ?]; [apply keeps_raise|].
  apply keeps_bind; [apply keeps_existing_table|]. intros many_table.
  destruct (find _ _); [|apply keeps_raise].
  by apply keeps_unflagged_append_column.
Qed.

Section BuilderKey.
Variable types_dict : gmap string TypeEngine.

Abbreviation construct_columns := (construct_columns types_dict).
Abbreviation construct_table := (construct_table types_dict).
Abbreviation key_column := (key_column types_dict).
Abbreviation key_of := (key_of types_dict).

Lemma key_column_tables r d st : tables (key_column r d st).1 = tables st.
Proof.
  unfold key_column. destruct (TableDefinition.primary_key d) as [pk|]; [|done].
  destruct (dict_get pk _) as [v|]; [|done].
  unfold bind, lift, construct_column.
  destruct (lookup_type types_dict v); [|done].
  unfold del_column. by destruct (defs st !! r).
Qed.

Lemma keeps_unflagged_construct_columns ts0 (rec : ref → M unit) table items :
  (∀ child, keeps (λ s, grows_by unflagged ts0 (tables s)) (rec child)) →
  keeps (λ s, grows_by unflagged ts0 (tables s)) (construct_columns rec table items).
Proof.
  intros Hrec. induction items as [|[name [ty|child]] items IH]; simpl.
  - apply keeps_ret.
  - intros st Hst. unfold bind at 1, lift.
    destruct (construct_column types_dict name (ColumnSpec ty)) as [c|e] eqn:Hc; [|done].
    apply construct_column_no_foreign_key in Hc as (_ & _ & Hc).
    apply keeps_bind; [by apply keeps_unflagged_append_column | done | done].
  - apply keeps_bind; [apply Hrec|]. intros _.
    apply keeps_bind; [apply keeps_deref|]. intros child_def.
    apply keeps_bind; [apply keeps_unflagged_construct_foreign_key | done].
Qed.

Lemma keeps_unflagged_construct_table ts0 fuel r :
  keeps (λ s, grows_by unflagged ts0 (tables s)) (construct_table fuel r).
Proof.
  revert r. induction fuel as [|fuel IH]; intros r; [apply keeps_raise|]. simpl.
  apply keeps_bind; [apply keeps_deref|]. intros table_def.
  apply keeps_bind; [apply keeps_get_tables|]. intros registered.
  destruct (has_table _ _); [apply keeps_ret|].
  apply keeps_bind.
  { intros st Hst. by rewrite key_column_tables. }
  intros primary_key. apply keeps_bind.
  { intros st Hst. simpl. eapply grows_by_trans; [exact Hst|apply grows_by_new_table]. }
  intros _. apply keeps_bind; [apply keeps_deref|]. intros table_def'.
  by apply keeps_unflagged_construct_columns.
Qed.

(** X3.  The primary key of a registered table never changes.  Whatever
    the definition, the store and the outcome of a call, every table that
    was registered before the call is still found under its name and has
    the same flagged columns: the builder only ever appends columns that
    are not flagged. *)
Theorem primary_key_never_changes fuel r st nm tbl :
  get_table nm (tables st) = Some tbl →
  ∃ tbl', get_table nm (tables (construct_table fuel r st).1) = Some tbl' ∧
    Table.primary_key tbl' = Table.primary_key tbl.
Proof.
  intros Hget. eapply grows_by_unflagged_primary_key; [|exact Hget].
  apply (keeps_unflagged_construct_table (tables st)), grows_by_refl.
Qed.

Lemma key_of_designated_unflagged d pk key :
  TableDefinition.primary_key d = Some pk → key_of d = Some key →
  Column.primary_key key = false.
Proof.
  unfold key_of. intros ->. destruct (dict_get pk _) as [v|]; [|done].
  destruct (lookup_type types_dict v); [|done]. by intros [= <-].
Qed.

(** X4.  A definition that designates its primary key and nests a table
    is never built to the end.  The designated column is not flagged, so
    the table of the definition has no primary key, and the foreign key of
    the nested table cannot be made: whatever the fuel, the call does not
    return. *)
Theorem designated_key_with_nested_table_fails fuel r st d pk name child :
  defs st !! r = Some d →
  TableDefinition.name d ∉ table_names (tables st) →
  TableDefinition.primary_key d = Some pk →
  (name, Nested child) ∈ TableDefinition.columns d →
  name ≠ pk →
  (construct_table fuel r st).2 ≠ Return tt.
Proof.
  intros Hr Hnew Hpk Hin Hne Hret.
  destruct (construct_table fuel r st) as [st' res] eqn:Hrun. simpl in Hret. subst res.
  destruct fuel as [|fuel]; [done|].
  set (table := TableDefinition.name d) in *.
  rewrite (construct_table_fresh _ _ _ _ _ Hr Hnew) in Hrun.
  apply bind_Return in Hrun as (key & st1 & Hkey & Hrun).
  apply (key_column_Return _ _ _ _ _ _ Hr) in Hkey as [Hkey ->].
  pose proof (key_of_designated_unflagged _ _ _ Hpk Hkey) as Hflag.
  apply bind_Return in Hrun as ([] & st2 & [= <-] & Hrun).
  apply bind_Return in Hrun as (d2 & st2 & Hd2 & Hrun).
  apply deref_Return in Hd2 as [-> Hd2]. cbn [defs] in Hd2.
  rewrite lookup_insert_eq in Hd2. injection Hd2 as <-. fold table in Hrun.
  assert ((name, Nested child) ∈ TableDefinition.columns (without_key d)) as Hin'.
  { unfold without_key. rewrite Hpk. cbn [TableDefinition.columns].
    rewrite dict_del_filter. apply list_elem_of_filter. by split. }
  apply list_elem_of_split in Hin' as (pre & post & Hcols).
  rewrite Hcols, construct_columns_app in Hrun.
  apply bind_Return in Hrun as ([] & sa & Hpre & Hrun).
  rewrite construct_columns_nested in Hrun.
  apply bind_Return in Hrun as ([] & s1 & Hrec & Hrun).
  apply bind_Return in Hrun as (cd & s1' & Hcd & Hrun).
  apply deref_Return in Hcd as [-> Hcd].
  apply bind_Return in Hrun as ([] & s2 & Hfk & _).
  apply construct_foreign_key_Return in Hfk
    as (one & key1 & keys & _ & _ & Hone & Hkeys & _).
  set (ts2 := tables st ++ [Table.make table [attach table key]]) in *.
  assert (grows_by unflagged ts2 (tables s1)) as Hgrow.
  { pose proof (keeps_unflagged_construct_table ts2 fuel child sa) as Hchild.
    rewrite Hrec in Hchild. apply Hchild.
    pose proof (keeps_unflagged_construct_columns ts2 (construct_table fuel) table pre
                  (keeps_unflagged_construct_table ts2 fuel)
                  (State (<[r:=without_key d]> (defs st)) ts2)
                  (grows_by_refl unflagged ts2)) as Hloop.
    by rewrite Hpre in Hloop. }
  destruct (grows_by_unflagged_primary_key _ _ _ _ Hgrow (get_table_last table _ _ Hnew))
    as (tbl' & Hget' & Hpk').
  assert (tbl' = one) as -> by congruence.
  rewrite Hkeys in Hpk'. unfold Table.primary_key in Hpk'. cbn [Table.columns] in Hpk'.
  rewrite filter_cons, decide_False in Hpk'; [done|].
  simpl. by rewrite Hflag.
Qed.
End BuilderKey.

Lemma primary_key_never_changes_witness :
  ∃ tbl', get_table "people"
            (tables (construct_table sqlalchemy_types 2 0
                       (State example_heap [people_table])).1) = Some tbl' ∧
    Table.primary_key tbl' = Table.primary_key people_table.
Proof.
  apply (primary_key_never_changes sqlalchemy_types 2 0
           (State example_heap [people_table]) "people" people_table).
  reflexivity.
Defined.

Lemma designated_key_with_nested_table_fails_witness :
  (construct_table sqlalchemy_types 3 0 (State orders_heap [])).2 ≠ Return tt.
Proof.
  apply (designated_key_with_nested_table_fails sqlalchemy_types 3 0
           (State orders_heap []) orders_def "number" "lines" 1).
  - reflexivity.
  - apply not_elem_of_nil.
  - reflexivity.
  - apply list_elem_of_further, list_elem_of_here.
  - discriminate.
Defined.

(** ** The exceptions of a build *)

Lemma defs_step_is_Some h h' r : defs_step h h' → is_Some (h !! r) → is_Some (h' !! r).
Proof.
  intros Hstep [d Hr]. specialize (Hstep r). rewrite Hr in Hstep.
  inversion Hstep; subst. eauto.
Qed.

Lemma elem_of_columns_without_key d name v :
  (name, v) ∈ TableDefinition.columns (without_key d) →
  (name, v) ∈ TableDefinition.columns d.
Proof.
  unfold without_key. destruct (TableDefinition.primary_key d) as [pk|]; [|done].
  cbn [TableDefinition.columns]. rewrite dict_del_filter.
  by intros [_ ?]%list_elem_of_filter.
Qed.

Lemma closed_step h h' : defs_step h h' → closed h → closed h'.
Proof.
  intros Hstep Hclosed r d' name child Hr Hin.
  pose proof (Hstep r) as Hr'. rewrite Hr in Hr'.
  inversion Hr' as [d ? (_ & _ & Hcols) Hd |]; subst.
  eapply defs_step_is_Some; [done|]. eapply (Hclosed r d name); [done|].
  destruct Hcols as [<-|(pk & _ & Hcols)]; [done|].
  rewrite Hcols, dict_del_filter in Hin. by apply list_elem_of_filter in Hin as [_ ?].
Qed.

Lemma append_column_expected nm c st :
  nm ∈ table_names (tables st) →
  expected (append_column nm c st).2 ∧
  defs (append_column nm c st).1 = defs st ∧
  table_names (tables (append_column nm c st).1) = table_names (tables st).
Proof.
  intros [tbl Hget]%get_table_is_Some.
  unfold append_column, bind, the_table. rewrite Hget.
  case_bool_decide; simpl; [done|]. by rewrite table_names_add_column.
Qed.

Lemma construct_foreign_key_expected one many st :
  one ∈ table_names (tables st) →
  many ∈ table_names (tables st) →
  expected (construct_foreign_key one many st).2 ∧
  defs (construct_foreign_key one many st).1 = defs st ∧
  table_names (tables (construct_foreign_key one many st).1) = table_names (tables st).
Proof.
  intros [tbl Hone]%get_table_is_Some [tbl' Hmany]%get_table_is_Some.
  unfold construct_foreign_key, bind, the_table, existing_table. rewrite Hone.
  destruct (Table.primary_key tbl) as [|key keys]; [done|]. rewrite Hmany.
  destruct (find _ _) as [target|]; [|done].
  apply append_column_expected, get_table_is_Some.
  rewrite (get_table_name _ _ _ Hmany). eauto.
Qed.

Section BuilderExceptions.
Variable types_dict : gmap string TypeEngine.

Abbreviation construct_columns := (construct_columns types_dict).
Abbreviation construct_table := (construct_table types_dict).
Abbreviation key_column := (key_column types_dict).

Lemma key_column_raises r d st st1 e :
  key_column r d st = (st1, Raise e) → defs st !! r = Some d → ∃ msg, e = KeyError msg.
Proof.
  intros Hrun Hr. unfold key_column in Hrun.
  destruct (TableDefinition.primary_key d) as [pk|]; [|done].
  destruct (dict_get pk _) as [v|]; [|injection Hrun as _ <-; eauto].
  unfold bind, lift, construct_column in Hrun.
  destruct (lookup_type types_dict v); [|injection Hrun as _ <-; eauto].
  unfold del_column in Hrun. by rewrite Hr in Hrun.
Qed.

Lemma construct_columns_expected fuel table items :
  (∀ r st, closed (defs st) → is_Some (defs st !! r) →
     expected (construct_table fuel r st).2) →
  ∀ st, closed (defs st) →
    table ∈ table_names (tables st) →
    (∀ name child, (name, Nested child) ∈ items → is_Some (defs st !! child)) →
    expected (construct_columns (construct_table fuel) table items st).2.
Proof.
  intros Hrec. induction items as [|[name [ty|child]] items IH];
    intros st Hclosed Htable Hrefs; [done|..].
  - simpl. unfold bind at 1, lift, construct_column. simpl.
    destruct (types_dict !! ty) as [t|]; [|done].
    unfold bind at 1.
    destruct (append_column_expected table (Column.make name t false None None) st Htable)
      as (Hexp & Hdefs & Hnames).
    destruct (append_column _ _ st) as [s1 [[]|e]]; [|done]. simpl in Hdefs, Hnames.
    apply IH.
    + by rewrite Hdefs.
    + by rewrite Hnames.
    + intros name' child' Hin. rewrite Hdefs. eapply Hrefs. by right.
  - rewrite construct_columns_nested. unfold bind at 1.
    assert (is_Some (defs st !! child)) as [cd0 Hcd0] by (eapply Hrefs; by left).
    pose proof (Hrec child st Hclosed (mk_is_Some _ _ Hcd0)) as Hexp.
    pose proof (construct_table_frame types_dict fuel child st) as Hframe.
    pose proof (construct_table_registers types_dict fuel child st) as Hreg.
    destruct (construct_table fuel child st) as [s1 [[]|e]]; [|done].
    specialize (Hreg s1 cd0 Hcd0 eq_refl). simpl in Hframe.
    destruct Hframe as [Hdefs Hgrow].
    pose proof (Hdefs child) as Hchild. rewrite Hcd0 in Hchild.
    inversion Hchild as [? cd (Hname & _) Heq Hcd |]; subst.
    unfold bind at 1, deref. rewrite <- Hcd. unfold bind at 1.
    assert (table ∈ table_names (tables s1)) as Htable1.
    { destruct Hgrow as [Hpre _]. by eapply elem_of_prefix. }
    rewrite <- Hname in Hreg.
    destruct (construct_foreign_key_expected table (TableDefinition.name cd) s1
                Htable1 Hreg) as (Hexp' & Hdefs' & Hnames').
    destruct (construct_foreign_key _ _ s1) as [s2 [[]|e]]; [|done].
    simpl in Hdefs', Hnames'. apply IH.
    + rewrite Hdefs'. by eapply closed_step.
    + by rewrite Hnames'.
    + intros name' child' Hin. rewrite Hdefs'.
      eapply defs_step_is_Some; [done|]. eapply Hrefs. by right.
Qed.

End BuilderExceptions.

Lemma orders_heap_closed : closed orders_heap.
Proof.
  intros r d name child Hr Hin. unfold orders_heap in Hr.
  destruct (decide (r = 0)) as [->|Hr0].
  - rewrite lookup_insert_eq in Hr. injection Hr as <-. simpl in Hin.
    rewrite !elem_of_cons, elem_of_nil in Hin.
    destruct Hin as [[=]|[[= _ ->]|[]]]. by eexists.
  - rewrite lookup_insert_ne in Hr by done.
    destruct (decide (r = 1)) as [->|Hr1].
    + rewrite lookup_insert_eq in Hr. injection Hr as <-. simpl in Hin.
      rewrite !elem_of_cons, elem_of_nil in Hin. by destruct Hin as [[=]|[]].
    + by rewrite lookup_insert_ne, lookup_empty in Hr.
Defined.


(** ** The names of the registry *)

Section NamesKeeps.
Variable J : list string → Prop.
Variable types_dict : gmap string TypeEngine.

Lemma keeps_names_prop_append_column nm c :
  keeps (λ s, J (table_names (tables s))) (append_column nm c).
Proof.
  unfold append_column. apply keeps_bind; [apply keeps_the_table|].
  intros tbl. case_bool_decide; [apply keeps_raise|].
  intros st Hst. simpl. by rewrite table_names_add_column.
Qed.

Lemma keeps_names_prop_construct_columns (rec : ref → M unit) table items :
  (∀ child, keeps (λ s, J (table_names (tables s))) (rec child)) →
  keeps (λ s, J (table_names (tables s))) (construct_columns types_dict rec table items).
Proof.
  intros Hrec. induction items as [|[name [ty|child]] items IH]; simpl.
  - apply keeps_ret.
  - apply keeps_bind; [apply keeps_lift|]. intros c.
    apply keeps_bind; [apply keeps_names_prop_append_column | done].
  - apply keeps_bind; [apply Hrec|]. intros _.
    apply keeps_bind; [apply keeps_deref|]. intros child_def.
    apply keeps_bind; [|done].
    apply keeps_construct_foreign_key_by, keeps_names_prop_append_column.
Qed.
End NamesKeeps.

Section BuilderNames.
Variable types_dict : gmap string TypeEngine.

Abbreviation construct_columns := (construct_columns types_dict).
Abbreviation construct_table := (construct_table types_dict).
Abbreviation key_column := (key_column types_dict).
Abbreviation key_of := (key_of types_dict).

(** X6.  The builder never registers a second table under a name that
    the registry holds: when the names of the registry are distinct
    before a call, they are distinct after it, whatever its outcome. *)
Theorem table_names_stay_distinct fuel r st :
  NoDup (table_names (tables st)) →
  NoDup (table_names (tables (construct_table fuel r st).1)).
Proof.
  revert r st. induction fuel as [|fuel IH]; intros r st Hst; [done|].
  destruct (defs st !! r) as [d|] eqn:Hr.
  2:{ simpl. unfold bind, deref. by rewrite Hr. }
  destruct (decide (TableDefinition.name d ∈ table_names (tables st))) as [Hin|Hnew].
  { by rewrite (construct_table_registered _ _ _ _ _ Hr Hin). }
  rewrite (construct_table_fresh _ _ _ _ _ Hr Hnew). unfold bind at 1.
  destruct (key_column r d st) as [st1 [key|e]] eqn:Hrun.
  - apply (key_column_Return _ _ _ _ _ _ Hr) in Hrun as [_ ->].
    unfold bind at 1, new_table. cbn [defs tables].
    apply (keeps_bind (λ s, NoDup (table_names (tables s)))); [apply keeps_deref|..].
    + intros d2. apply (keeps_names_prop_construct_columns NoDup). intros child s. apply IH.
    + cbn [tables]. unfold table_names in *. rewrite fmap_app. apply NoDup_app.
      split; [done|]. split; [|apply NoDup_singleton].
      intros nm Hnm ->%list_elem_of_singleton. done.
  - by rewrite (key_column_Raise _ _ _ _ _ _ Hrun Hr).
Qed.

(** X7.  A table is registered before the tables nested in it.  When the
    name of the definition is not registered and its key column resolves,
    the name comes right after the names that the registry held, and the
    names registered during the rest of the call follow it, whatever the
    outcome; so the table of the root is the first one of the registry
    that [generate_metadata] returns. *)
Theorem parent_is_registered_first fuel r st d key :
  defs st !! r = Some d →
  TableDefinition.name d ∉ table_names (tables st) →
  key_of d = Some key →
  (table_names (tables st) ++ [TableDefinition.name d]) `prefix_of`
    table_names (tables (construct_table (S fuel) r st).1) ∧
  (tables st = [] →
   ∀ ts, generate_metadata types_dict (S fuel) (defs st) (DocTable r) = Return ts →
     Table.name <$> head ts = Some (TableDefinition.name d)).
Proof.
  intros Hr Hnew Hkey.
  assert ((table_names (tables st) ++ [TableDefinition.name d]) `prefix_of`
            table_names (tables (construct_table (S fuel) r st).1)) as Hpre.
  { rewrite (construct_table_fresh _ _ _ _ _ Hr Hnew). unfold bind at 1.
    rewrite (proj2 (key_column_Return types_dict r d st _ key Hr) (conj Hkey eq_refl)).
    unfold bind at 1, new_table. cbn [defs tables].
    apply (keeps_bind (λ s, (table_names (tables st) ++ [TableDefinition.name d])
                              `prefix_of` table_names (tables s))); [apply keeps_deref|..].
    - intros d2.
      apply (keeps_names_prop_construct_columns
               (λ l, (table_names (tables st) ++ [TableDefinition.name d]) `prefix_of` l)).
      intros child s Hs. etrans; [exact Hs|].
      by destruct (construct_table_frame types_dict fuel child s) as [_ [? _]].
    - cbn [tables]. unfold table_names. by rewrite fmap_app. }
  split; [done|]. intros Hempty ts Hgen. unfold generate_metadata in Hgen.
  destruct st as [h ts0]. cbn [defs tables] in *. subst ts0.
  destruct (construct_table (S fuel) r (State h [])) as [st' [[]|e]]; [|done].
  injection Hgen as <-. cbn [fst app table_names fmap list_fmap] in Hpre.
  destruct Hpre as [more Hmore]. destruct (tables st') as [|tbl rest]; [done|].
  simpl in Hmore. injection Hmore as Hname _. simpl. by rewrite Hname.
Qed.
End BuilderNames.

Lemma table_names_stay_distinct_witness :
  NoDup (table_names
           (tables (construct_table sqlalchemy_types 3 0
                      (State example_heap [items_table])).1)).
Proof.
  apply (table_names_stay_distinct sqlalchemy_types 3 0 (State example_heap [items_table])).
  apply NoDup_singleton.
Defined.

Lemma parent_is_registered_first_witness :
  (table_names [] ++ ["people"]) `prefix_of`
    table_names (tables (construct_table sqlalchemy_types 3 0 (State example_heap [])).1) ∧
  (tables (State example_heap []) = [] →
   ∀ ts, generate_metadata sqlalchemy_types 3 example_heap (DocTable 0) = Return ts →
     Table.name <$> head ts = Some "people").
Proof.
  apply (parent_is_registered_first sqlalchemy_types 2 0 (State example_heap [])
           people_def id_column).
  - reflexivity.
  - apply not_elem_of_nil.
  - reflexivity.
Defined.

(** ** A table nested in another *)

Lemma get_table_mid table ts cols suffix :
  table ∉ table_names ts →
  get_table table (ts ++ Table.make table cols :: suffix) = Some (Table.make table cols).
Proof.
  intros Hnew. rewrite get_table_app_r by (by apply get_table_None).
  simpl. by rewrite decide_True.
Qed.

Lemma add_column_mid table c ts cols suffix :
  table ∉ table_names ts →
  add_column table c (ts ++ Table.make table cols :: suffix) =
    ts ++ Table.make table (cols ++ [attach table c]) :: suffix.
Proof.
  unfold table_names. induction ts as [|t ts IH]; csimpl; intros Hnew.
  - by rewrite decide_True.
  - apply not_elem_of_cons in Hnew as [Hne Hnew].
    rewrite decide_False by done. by rewrite IH.
Qed.

Section BuilderNested.
Variable types_dict : gmap string TypeEngine.

Abbreviation construct_columns := (construct_columns types_dict).
Abbreviation construct_table := (construct_table types_dict).
Abbreviation declared_columns := (declared_columns types_dict).
Abbreviation key_of := (key_of types_dict).
Abbreviation known := (λ kv : string * value, is_Some (lookup_type types_dict kv.2)).

Lemma construct_columns_plain_mid (rec : ref → M unit) table items h ts cols suffix :
  table ∉ table_names ts →
  Forall known items →
  NoDup ((Column.name <$> cols) ++ items.*1) →
  construct_columns rec table items (State h (ts ++ Table.make table cols :: suffix)) =
    (State h (ts ++ Table.make table (cols ++ declared_columns table items) :: suffix),
     Return tt).
Proof.
  intros Hnew Hknown. revert cols.
  induction Hknown as [|[name v] items [ty Hty] _ IH]; intros cols Hdup.
  - simpl. by rewrite app_nil_r.
  - simpl in Hty. destruct v as [typeName|child]; [|done].
    rewrite (declared_columns_cons_known _ _ _ _ _ _ Hty).
    change (construct_columns rec table ((name, ColumnSpec typeName) :: items))
      with (c ← lift (construct_column types_dict name (ColumnSpec typeName));
            append_column table c ;;
            construct_columns rec table items).
    rewrite (construct_column_known _ _ _ _ Hty).
    unfold bind at 1, lift. unfold bind at 1, append_column.
    unfold bind at 1, the_table. simpl.
    rewrite (get_table_mid _ _ _ _ Hnew). simpl.
    apply NoDup_app in Hdup as (Hcols & Hdisj & Hitems).
    rewrite bool_decide_eq_false_2.
    2:{ intros Hin. apply (Hdisj _ Hin). csimpl. apply list_elem_of_here. }
    cbn [defs tables]. rewrite (add_column_mid _ _ _ _ _ Hnew).
    rewrite IH.
    + by rewrite <- app_assoc.
    + rewrite fmap_app. csimpl. rewrite <- app_assoc. simpl.
      apply NoDup_app. split; [done|]. split; [|done].
      intros x Hx. by apply Hdisj.
Qed.

(** X8.  A table nested in another, both without further nesting.  The
    parent has no designated key and its name is not registered; one of
    its entries nests a definition of another, unregistered name whose key
    resolves; all other entries of both hold known type names, under
    column names that do not clash.  Then the build returns and the
    registry gains two tables, the parent first: the parent with [id] and
    its declared columns (the nested entry gives it no column), the
    nested table with its key, its declared columns and, last, a foreign
    key to the [id] of the parent, named after the parent and the printed
    key column.  Only the nested definition may have lost its designated
    key entry. *)
Theorem nested_table_builds fuel r st d before name child after cd ckey :
  defs st !! r = Some d →
  TableDefinition.primary_key d = None →
  TableDefinition.name d ∉ table_names (tables st) →
  TableDefinition.columns d = before ++ (name, Nested child) :: after →
  Forall known before →
  Forall known after →
  NoDup ("id" :: before.*1 ++ after.*1) →
  defs st !! child = Some cd →
  TableDefinition.name cd ∉ table_names (tables st) →
  TableDefinition.name cd ≠ TableDefinition.name d →
  key_of cd = Some ckey →
  Forall known (TableDefinition.columns (without_key cd)) →
  NoDup (Column.name ckey :: (TableDefinition.columns (without_key cd)).*1 ++
         [Column.name (parent_foreign_key (TableDefinition.name d))]) →
  construct_table (S (S fuel)) r st =
    (State (<[child := without_key cd]> (defs st))
       (tables st ++
        [Table.make (TableDefinition.name d)
           (attach (TableDefinition.name d) id_column ::
            declared_columns (TableDefinition.name d) before ++
            declared_columns (TableDefinition.name d) after);
         Table.make (TableDefinition.name cd)
           (attach (TableDefinition.name cd) ckey ::
            declared_columns (TableDefinition.name cd)
              (TableDefinition.columns (without_key cd)) ++
            [attach (TableDefinition.name cd)
               (parent_foreign_key (TableDefinition.name d))])]),
     Return tt).
Proof.
  intros Hr Hpk Hnew Hcols Hbefore Hafter Hdup Hchild Hcnew Hne Hckey Hcknown Hcdup.
  destruct st as [h ts]. cbn [defs tables] in *.
  set (P := TableDefinition.name d) in *. set (C := TableDefinition.name cd) in *.
  apply NoDup_cons in Hdup as [Hid Hdup].
  apply NoDup_app in Hdup as (Hdup_before & Hdisj & Hdup_after).
  rewrite not_elem_of_app in Hid. destruct Hid as [Hid_before Hid_after].
  rewrite (construct_table_fresh types_dict _ r (State h ts) d Hr Hnew).
  unfold bind at 1.
  assert (key_of d = Some id_column) as Hkey by (unfold key_of; by rewrite Hpk).
  assert (without_key d = d) as Hd by (unfold without_key; by rewrite Hpk).
  rewrite (proj2 (key_column_Return types_dict r d (State h ts) _ id_column Hr)
             (conj Hkey eq_refl)).
  cbn [defs tables]. rewrite Hd, (insert_id _ _ _ Hr).
  unfold bind at 1, new_table. cbn [defs tables].
  unfold bind at 1, deref. cbn [defs]. rewrite Hr, Hcols. fold P.
  rewrite (construct_columns_plain types_dict); [|done|done|by constructor].
  rewrite construct_columns_nested. unfold bind at 1.
  set (pcols := [attach P id_column] ++ declared_columns P before).
  assert (C ∉ table_names (ts ++ [Table.make P pcols])) as Hcnew'.
  { unfold table_names. rewrite fmap_app, not_elem_of_app. split; [done|].
    by intros ->%list_elem_of_singleton. }
  rewrite (construct_table_flat types_dict fuel child (State h _) cd ckey Hchild
             Hcnew' Hckey Hcknown).
  2:{ apply NoDup_cons in Hcdup as [Hck Hcdup]. rewrite not_elem_of_app in Hck.
      apply NoDup_app in Hcdup as (? & _ & _). constructor; tauto. }
  cbn [defs tables]. fold C.
  unfold bind at 1, deref. cbn [defs]. rewrite lookup_insert_eq, without_key_name.
  fold C. unfold bind at 1.
  set (ccols := attach C ckey :: declared_columns C (TableDefinition.columns (without_key cd))).
  rewrite (construct_foreign_key_appends P C _ _ (Table.make P pcols)
             (attach P id_column) [] (attach P id_column) (Table.make C ccols)).
  - rewrite (add_column_last _ _ _ _ Hcnew').
    rewrite <- app_assoc. cbn [app].
    rewrite construct_columns_plain_mid; [|done|done|].
    + subst pcols ccols. reflexivity.
    + subst pcols. rewrite fmap_app. csimpl.
      rewrite (declared_columns_names _ _ _ Hbefore).
      constructor; [rewrite not_elem_of_app; tauto|].
      apply NoDup_app. split; [done|]. split; [|done].
      intros x Hx. by apply Hdisj.
  - apply get_table_app_l. by apply get_table_last.
  - unfold Table.primary_key. subst pcols. cbn [Table.columns app].
    rewrite filter_cons, decide_True by done.
    by rewrite declared_columns_no_key.
  - by apply get_table_last.
  - subst pcols. cbn [Table.columns app find]. by rewrite bool_decide_eq_true_2.
  - unfold column_names. subst ccols. cbn [Table.columns]. csimpl.
    rewrite (declared_columns_names _ _ _ Hcknown).
    apply NoDup_cons in Hcdup as [Hck Hcdup]. rewrite not_elem_of_app in Hck.
    apply NoDup_app in Hcdup as (_ & Hcdisj & _).
    rewrite not_elem_of_cons. split.
    + intros Heq. apply (proj2 Hck). rewrite <- Heq. apply list_elem_of_here.
    + intros Hin. apply (Hcdisj _ Hin), list_elem_of_here.
Qed.
End BuilderNested.

Ltac distinct_names :=
  vm_compute; repeat constructor; intros H;
  repeat (inversion H as [|? ? ? H']; clear H; rename H' into H).

(** The document of the module is such a pair of tables. *)
Lemma nested_table_builds_witness :
  construct_table sqlalchemy_types 2 0 (State example_heap []) =
    (State (<[1 := without_key items_def]> example_heap)
       ([] ++
        [Table.make "people"
           (attach "people" id_column ::
            declared_columns sqlalchemy_types "people"
              [("firstName", ColumnSpec "String"); ("lastName", ColumnSpec "String")] ++
            declared_columns sqlalchemy_types "people" []);
         Table.make "items"
           (attach "items" id_column ::
            declared_columns sqlalchemy_types "items"
              (TableDefinition.columns (without_key items_def)) ++
            [attach "items" (parent_foreign_key "people")])]),
     Return tt).
Proof.
  apply (nested_table_builds sqlalchemy_types 0 0 (State example_heap []) people_def
           [("firstName", ColumnSpec "String"); ("lastName", ColumnSpec "String")]
           "inventory" 1 [] items_def id_column).
  - reflexivity.
  - reflexivity.
  - apply not_elem_of_nil.
  - reflexivity.
  - repeat constructor; by eexists.
  - constructor.
  - distinct_names.
  - reflexivity.
  - apply not_elem_of_nil.
  - discriminate.
  - reflexivity.
  - repeat constructor. by eexists.
  - distinct_names.
Defined.

(** ** The outcomes of [construct_foreign_key] *)

(** X9.  [construct_foreign_key] changes the store only when it returns:
    after any exception the registry and the definitions are as before.
    And it never raises [KeyError]: the key column that it takes from
    [one_table.primary_key.columns] is always found again, by its name,
    among the columns of the table. *)
Theorem construct_foreign_key_failures one_table many_name st :
  (∀ msg, (construct_foreign_key one_table many_name st).2 ≠ Raise (KeyError msg)) ∧
  (∀ e, (construct_foreign_key one_table many_name st).2 = Raise e →
     (construct_foreign_key one_table many_name st).1 = st).
Proof.
  unfold construct_foreign_key, bind, the_table, existing_table.
  destruct (get_table one_table (tables st)) as [one|]; [|by split].
  destruct (Table.primary_key one) as [|key keys] eqn:Hkeys; [by split|].
  destruct (get_table many_name (tables st)) as [many|]; [|by split].
  destruct (find _ _) as [target|] eqn:Hfind.
  - unfold append_column, bind, the_table.
    destruct (get_table (Table.name many) (tables st)); [|by split].
    case_bool_decide; by split.
  - exfalso. assert (key ∈ Table.columns one) as Hin.
    { assert (key ∈ Table.primary_key one) as Hin by (rewrite Hkeys; apply list_elem_of_here).
      unfold Table.primary_key in Hin. by apply list_elem_of_filter in Hin as [_ ?]. }
    apply list_elem_of_In in Hin.
    pose proof (find_none _ _ Hfind _ Hin) as Hkey. simpl in Hkey.
    by rewrite bool_decide_eq_true_2 in Hkey.
Qed.

(** ** More fuel *)

Section BuilderFuel.
Variable types_dict : gmap string TypeEngine.

Abbreviation construct_columns := (construct_columns types_dict).
Abbreviation construct_table := (construct_table types_dict).

Lemma construct_columns_same (rec rec' : ref → M unit) table items :
  (∀ child st st' res, rec child st = (st', res) → res ≠ Raise RecursionError →
     rec' child st = (st', res)) →
  ∀ st st' res,
    construct_columns rec table items st = (st', res) →
    res ≠ Raise RecursionError →
    construct_columns rec' table items st = (st', res).
Proof.
  intros Hrec. induction items as [|[name [ty|child]] items IH];
    intros st st' res Hrun Hres; [done|..].
  - simpl in *. unfold bind at 1 in Hrun. unfold bind at 1.
    destruct (lift _ st) as [s0 [c|e]]; [|done].
    unfold bind at 1 in Hrun. unfold bind at 1.
    destruct (append_column table c s0) as [s1 [[]|e]]; [|done]. by apply IH.
  - rewrite construct_columns_nested in *.
    unfold bind at 1 in Hrun. unfold bind at 1.
    destruct (rec child st) as [s1 [[]|e]] eqn:Hchild.
    + rewrite (Hrec _ _ _ _ Hchild) by done.
      unfold bind at 1 in Hrun. unfold bind at 1.
      destruct (deref child s1) as [s1' [cd|e]]; [|done].
      unfold bind at 1 in Hrun. unfold bind at 1.
      destruct (construct_foreign_key _ _ s1') as [s2 [[]|e]]; [|done]. by apply IH.
    + injection Hrun as <- <-. by rewrite (Hrec _ _ _ _ Hchild).
Qed.

Lemma construct_table_S fuel r st st' res :
  construct_table fuel r st = (st', res) →
  res ≠ Raise RecursionError →
  construct_table (S fuel) r st = (st', res).
Proof.
  revert r st st' res. induction fuel as [|fuel IH]; intros r st st' res Hrun Hres.
  { injection Hrun as _ <-. done. }
  change (construct_table (S fuel) r st) with
    ((table_def ← deref r;
      registered ← get_tables;
      if has_table (TableDefinition.name table_def) registered then ret tt
      else
        primary_key ← key_column types_dict r table_def;
        new_table (TableDefinition.name table_def) primary_key ;;
        table_def' ← deref r;
        construct_columns (construct_table fuel) (TableDefinition.name table_def)
          (TableDefinition.columns table_def')) st) in Hrun.
  change (construct_table (S (S fuel)) r st) with
    ((table_def ← deref r;
      registered ← get_tables;
      if has_table (TableDefinition.name table_def) registered then ret tt
      else
        primary_key ← key_column types_dict r table_def;
        new_table (TableDefinition.name table_def) primary_key ;;
        table_def' ← deref r;
        construct_columns (construct_table (S fuel)) (TableDefinition.name table_def)
          (TableDefinition.columns table_def')) st).
  unfold bind at 1 in Hrun. unfold bind at 1.
  destruct (deref r st) as [s0 [d|e]]; [|done].
  unfold bind at 1 in Hrun. unfold bind at 1.
  destruct (get_tables s0) as [s0' [registered|e]]; [|done].
  destruct (has_table _ _); [done|].
  unfold bind at 1 in Hrun. unfold bind at 1.
  destruct (key_column types_dict r d s0') as [s1 [key|e]]; [|done].
  unfold bind at 1 in Hrun. unfold bind at 1.
  destruct (new_table _ key s1) as [s2 [[]|e]]; [|done].
  unfold bind at 1 in Hrun. unfold bind at 1.
  destruct (deref r s2) as [s2' [d2|e]]; [|done].
  by eapply construct_columns_same.
Qed.

(** X10.  A result that was obtained without [RecursionError] does not
    depend on the recursion limit: with any larger limit the call ends
    with the same outcome and the same store. *)
Theorem more_fuel_same_result fuel fuel' r st :
  fuel ≤ fuel' →
  (construct_table fuel r st).2 ≠ Raise RecursionError →
  construct_table fuel' r st = construct_table fuel r st.
Proof.
  intros Hle Hres. induction Hle as [|fuel' Hle IH]; [done|].
  rewrite <- IH in *. destruct (construct_table fuel' r st) as [st' res] eqn:Hrun.
  by apply construct_table_S.
Qed.
End BuilderFuel.

Lemma more_fuel_same_result_witness :
  construct_table sqlalchemy_types 1000 0 (State example_heap []) =
  construct_table sqlalchemy_types 2 0 (State example_heap []).
Proof.
  apply (more_fuel_same_result sqlalchemy_types 2 1000 0 (State example_heap [])).
  - lia.
  - vm_compute. discriminate.
Defined.

(** ** Foreign keys refer to registered columns *)

Lemma add_column_absent nm c ts : get_table nm ts = None → add_column nm c ts = ts.
Proof.
  induction ts as [|t ts IH]; [done|]. simpl.
  destruct (decide (Table.name t = nm)); [done|]. intros H. by rewrite IH.
Qed.

Lemma resolves_add_column nm c ts t k :
  resolves ts t k → resolves (add_column nm c ts) t k.
Proof.
  intros (tbl & Hget & Hk). destruct (decide (nm = t)) as [->|Hne].
  - eexists. split; [by apply get_table_add_column_eq|].
    unfold column_names in *. cbn [Table.columns]. rewrite fmap_app.
    apply elem_of_app. by left.
  - exists tbl. by rewrite get_table_add_column_ne.
Qed.

Lemma resolves_app ts ts' t k : resolves ts t k → resolves (ts ++ ts') t k.
Proof. intros (tbl & Hget & Hk). exists tbl. eauto using get_table_app_l. Qed.

Lemma consistent_add_column nm c ts :
  consistent ts →
  (∀ t k, Column.foreign_key c = Some (t, k) → resolves ts t k) →
  consistent (add_column nm c ts).
Proof.
  intros [Hatt Href] Hc.
  destruct (get_table nm ts) as [tbl|] eqn:Hget;
    [|by rewrite add_column_absent].
  split.
  - intros nm' tbl1 c1 Hget1 Hin. destruct (decide (nm = nm')) as [<-|Hne].
    + rewrite (get_table_add_column_eq _ _ _ _ Hget) in Hget1. injection Hget1 as <-.
      cbn [Table.columns] in Hin. apply elem_of_app in Hin as [Hin|Hin]; [by eapply Hatt|].
      by apply list_elem_of_singleton in Hin as ->.
    + rewrite get_table_add_column_ne in Hget1 by done. by eapply Hatt.
  - intros nm' tbl1 c1 t k Hget1 Hin Hfk. apply resolves_add_column.
    destruct (decide (nm = nm')) as [<-|Hne].
    + rewrite (get_table_add_column_eq _ _ _ _ Hget) in Hget1. injection Hget1 as <-.
      cbn [Table.columns] in Hin. apply elem_of_app in Hin as [Hin|Hin]; [by eapply Href|].
      apply list_elem_of_singleton in Hin as ->. by apply Hc.
    + rewrite get_table_add_column_ne in Hget1 by done. by eapply Href.
Qed.

Lemma consistent_new_table nm c ts :
  nm ∉ table_names ts →
  Column.foreign_key c = None →
  consistent ts →
  consistent (ts ++ [Table.make nm [attach nm c]]).
Proof.
  intros Hnew Hc [Hatt Href].
  assert (∀ nm' tbl, get_table nm' (ts ++ [Table.make nm [attach nm c]]) = Some tbl →
            get_table nm' ts = Some tbl ∨
            (nm' = nm ∧ tbl = Table.make nm [attach nm c])) as Hcases.
  { intros nm' tbl Hget. destruct (get_table nm' ts) as [tbl0|] eqn:Hget0.
    - left. by rewrite (get_table_app_l _ _ _ _ Hget0) in Hget.
    - right. rewrite (get_table_app_r _ _ _ Hget0) in Hget. simpl in Hget.
      destruct (decide (nm = nm')) as [<-|]; [|done]. by injection Hget as <-. }
  split.
  - intros nm' tbl c1 Hget Hin. destruct (Hcases _ _ Hget) as [Hget0|[-> ->]].
    + by eapply Hatt.
    + by apply list_elem_of_singleton in Hin as ->.
  - intros nm' tbl c1 t k Hget Hin Hfk. destruct (Hcases _ _ Hget) as [Hget0|[-> ->]].
    + apply resolves_app. by eapply Href.
    + apply list_elem_of_singleton in Hin as ->. simpl in Hfk. congruence.
Qed.

Lemma keeps_consistent_append_column nm c :
  Column.foreign_key c = None →
  keeps (λ s, consistent (tables s)) (append_column nm c).
Proof.
  intros Hc. unfold append_column. apply keeps_bind; [apply keeps_the_table|].
  intros tbl. case_bool_decide; [apply keeps_raise|].
  intros st Hst. simpl. apply consistent_add_column; [done|]. congruence.
Qed.

Lemma keeps_consistent_construct_foreign_key one_table many_name :
  keeps (λ s, consistent (tables s)) (construct_foreign_key one_table many_name).
Proof.
  intros st Hst. unfold construct_foreign_key, bind, the_table, existing_table.
  destruct (get_table one_table (tables st)) as [one|] eqn:Hone; [|done].
  destruct (Table.primary_key one) as [|key keys]; [done|].
  destruct (get_table many_name (tables st)) as [many|]; [|done].
  destruct (find _ _) as [target|] eqn:Hfind; [|done].
  unfold append_column, bind, the_table.
  destruct (get_table (Table.name many) (tables st)); [|done].
  case_bool_decide; [done|]. simpl.
  apply consistent_add_column; [done|]. intros t' k' [= <- <-].
  apply find_some in Hfind as [Hin _]. apply list_elem_of_In in Hin.
  destruct Hst as [Hatt _]. rewrite (Hatt _ _ _ Hone Hin). simpl.
  exists one. split; [done|]. unfold column_names. by apply list_elem_of_fmap_2.
Qed.

Section BuilderConsistent.
Variable types_dict : gmap string TypeEngine.

Abbreviation construct_columns := (construct_columns types_dict).
Abbreviation construct_table := (construct_table types_dict).
Abbreviation key_column := (key_column types_dict).
Abbreviation key_of := (key_of types_dict).

Lemma key_of_no_foreign_key d key : key_of d = Some key → Column.foreign_key key = None.
Proof.
  unfold key_of. destruct (TableDefinition.primary_key d) as [pk|].
  - destruct (dict_get pk _) as [v|]; [|done].
    destruct (lookup_type types_dict v); [|done]. by intros [= <-].
  - by intros [= <-].
Qed.

Lemma keeps_consistent_construct_columns (rec : ref → M unit) table items :
  (∀ child, keeps (λ s, consistent (tables s)) (rec child)) →
  keeps (λ s, consistent (tables s)) (construct_columns rec table items).
Proof.
  intros Hrec. induction items as [|[name [ty|child]] items IH]; simpl.
  - apply keeps_ret.
  - intros st Hst. unfold bind at 1, lift.
    destruct (construct_column types_dict name (ColumnSpec ty)) as [c|e] eqn:Hc; [|done].
    apply construct_column_no_foreign_key in Hc as (_ & Hc & _).
    apply keeps_bind; [by apply keeps_consistent_append_column | done | done].
  - apply keeps_bind; [apply Hrec|]. intros _.
    apply keeps_bind; [apply keeps_deref|]. intros child_def.
    apply keeps_bind; [apply keeps_consistent_construct_foreign_key | done].
Qed.

Lemma construct_table_consistent fuel r st :
  consistent (tables st) →
  consistent (tables (construct_table fuel r st).1).
Proof.
  revert r st. induction fuel as [|fuel IH]; intros r st Hst; [done|].
  destruct (defs st !! r) as [d|] eqn:Hr.
  2:{ simpl. unfold bind, deref. by rewrite Hr. }
  destruct (decide (TableDefinition.name d ∈ table_names (tables st))) as [Hin|Hnew].
  { by rewrite (construct_table_registered _ _ _ _ _ Hr Hin). }
  rewrite (construct_table_fresh _ _ _ _ _ Hr Hnew). unfold bind at 1.
  destruct (key_column r d st) as [st1 [key|e]] eqn:Hrun.
  - apply (key_column_Return _ _ _ _ _ _ Hr) in Hrun as [Hkey ->].
    unfold bind at 1, new_table. cbn [defs tables].
    apply (keeps_bind (λ s, consistent (tables s))); [apply keeps_deref|..].
    + intros d2. apply keeps_consistent_construct_columns. intros child s. apply IH.
    + cbn [tables]. apply consistent_new_table; [done| |done].
      by eapply key_of_no_foreign_key.
  - by rewrite (key_column_Raise _ _ _ _ _ _ Hrun Hr).
Qed.

Lemma consistent_nil : consistent [].
Proof. split; [by intros ? ? ? ?|by intros ? ? ? ? ? ?]. Qed.

(** X11.  The builder keeps the registry consistent, whatever the
    outcome of a call: when every column is attached to the table that
    holds it and every foreign key refers to a column of a registered
    table before the call, the same is true after it.  So every registry
    that [generate_metadata] returns is consistent: its foreign keys
    refer to columns that exist. *)
Theorem registry_stays_consistent :
  (∀ fuel r st, consistent (tables st) →
     consistent (tables (construct_table fuel r st).1)) ∧
  (∀ fuel heap document ts,
     generate_metadata types_dict fuel heap document = Return ts → consistent ts).
Proof.
  split; [apply construct_table_consistent|].
  intros fuel heap [r|items] ts Hgen; [|done]. unfold generate_metadata in Hgen.
  pose proof (construct_table_consistent fuel r (State heap []) consistent_nil) as H.
  destruct (construct_table fuel r (State heap [])) as [st' [[]|e]]; [|done].
  by injection Hgen as <-.
Qed.
End BuilderConsistent.

Lemma registry_stays_consistent_witness :
  consistent
    (tables (construct_table sqlalchemy_types 3 0 (State example_heap [people_table])).1).
Proof.
  apply (proj1 (registry_stays_consistent sqlalchemy_types) 3 0
           (State example_heap [people_table])).
  split.
  - intros nm tbl c Hget Hin. cbn [tables get_table] in Hget.
    destruct (decide (Table.name people_table = nm)) as [<-|]; [|done].
    injection Hget as <-. simpl in Hin.
    rewrite !elem_of_cons, elem_of_nil in Hin. by destruct Hin as [->|[->|[->|[]]]].
  - intros nm tbl c t k Hget Hin Hfk. cbn [tables get_table] in Hget.
    destruct (decide (Table.name people_table = nm)) as [<-|]; [|done].
    injection Hget as <-. simpl in Hin.
    rewrite !elem_of_cons, elem_of_nil in Hin. by destruct Hin as [->|[->|[->|[]]]].
Defined.

(** ** Two tables nested in each other *)

Section BuilderMutual.
Variable types_dict : gmap string TypeEngine.

Abbreviation construct_columns := (construct_columns types_dict).
Abbreviation construct_table := (construct_table types_dict).
Abbreviation declared_columns := (declared_columns types_dict).
Abbreviation key_of := (key_of types_dict).
Abbreviation known := (λ kv : string * value, is_Some (lookup_type types_dict kv.2)).

Lemma primary_key_id table before more :
  Forall unflagged more →
  Table.primary_key
    (Table.make table (([attach table id_column] ++ declared_columns table before) ++ more)) =
  [attach table id_column].
Proof.
  intros Hmore. unfold Table.primary_key. cbn [Table.columns app].
  rewrite filter_cons, decide_True by done.
  by rewrite filter_app, declared_columns_no_key, (filter_unflagged _ Hmore).
Qed.

(** A definition that nests a table which is being built: the nested
    name is registered, so only the foreign key is made, on the
    registered table. *)
Lemma construct_table_back_reference fuel b h ts A pA dB beforeB kB a afterB da :
  A ∉ table_names ts →
  h !! b = Some dB →
  TableDefinition.primary_key dB = None →
  TableDefinition.name dB ∉ table_names ts →
  TableDefinition.name dB ≠ A →
  TableDefinition.columns dB = beforeB ++ (kB, Nested a) :: afterB →
  h !! a = Some da →
  TableDefinition.name da = A →
  Forall known beforeB →
  Forall known afterB →
  NoDup ("id" :: beforeB.*1 ++ afterB.*1) →
  Column.name (parent_foreign_key (TableDefinition.name dB)) ∉ Column.name <$> pA →
  construct_table (S (S fuel)) b (State h (ts ++ [Table.make A pA])) =
    (State h
       (ts ++
        [Table.make A (pA ++ [attach A (parent_foreign_key (TableDefinition.name dB))]);
         Table.make (TableDefinition.name dB)
           (attach (TableDefinition.name dB) id_column ::
            declared_columns (TableDefinition.name dB) beforeB ++
            declared_columns (TableDefinition.name dB) afterB)]),
     Return tt).
Proof.
  intros HA Hb Hpk HB Hne Hcols Ha Hname Hbefore Hafter Hdup Hfresh.
  set (B := TableDefinition.name dB) in *.
  apply NoDup_cons in Hdup as [Hid Hdup].
  apply NoDup_app in Hdup as (Hdup_before & Hdisj & Hdup_after).
  rewrite not_elem_of_app in Hid. destruct Hid as [Hid_before Hid_after].
  assert (B ∉ table_names (ts ++ [Table.make A pA])) as HB'.
  { unfold table_names. rewrite fmap_app, not_elem_of_app. split; [done|].
    by intros ->%list_elem_of_singleton. }
  rewrite (construct_table_fresh types_dict _ b (State h _) dB Hb HB').
  unfold bind at 1.
  assert (key_of dB = Some id_column) as Hkey by (unfold key_of; by rewrite Hpk).
  assert (without_key dB = dB) as Hd by (unfold without_key; by rewrite Hpk).
  rewrite (proj2 (key_column_Return types_dict b dB (State h _) _ id_column Hb)
             (conj Hkey eq_refl)).
  cbn [defs tables]. rewrite Hd, (insert_id _ _ _ Hb).
  unfold bind at 1, new_table. cbn [defs tables].
  unfold bind at 1, deref. cbn [defs]. rewrite Hb, Hcols. fold B.
  rewrite (construct_columns_plain types_dict); [|done|done|by constructor].
  rewrite construct_columns_nested. unfold bind at 1.
  set (pB := [attach B id_column] ++ declared_columns B beforeB).
  rewrite (construct_table_registered types_dict fuel a (State h _) da); [|done|].
  2:{ rewrite Hname. cbn [tables]. unfold table_names. rewrite !fmap_app, !elem_of_app.
      left. right. apply list_elem_of_here. }
  unfold bind at 1, deref. cbn [defs]. rewrite Ha, Hname. unfold bind at 1.
  rewrite (construct_foreign_key_appends B A h _ (Table.make B pB)
             (attach B id_column) [] (attach B id_column) (Table.make A pA)).
  - rewrite <- app_assoc. cbn [app]. rewrite (add_column_mid _ _ _ _ _ HA).
    rewrite (cons_middle _ ts), app_assoc.
    assert (B ∉ table_names (ts ++ [Table.make A
              (pA ++ [attach A (foreign_key_column (Table.make B pB)
                                  (attach B id_column) (attach B id_column))])])) as HB''.
    { unfold table_names. rewrite fmap_app, not_elem_of_app. split; [done|].
      intros Heq%list_elem_of_singleton. by apply Hne. }
    rewrite (construct_columns_plain_all types_dict); [|done|done|].
    + rewrite <- app_assoc. subst pB. reflexivity.
    + subst pB. rewrite fmap_app. csimpl.
      rewrite (declared_columns_names _ _ _ Hbefore).
      constructor; [rewrite not_elem_of_app; tauto|].
      apply NoDup_app. split; [done|]. split; [|done].
      intros x Hx. by apply Hdisj.
  - by apply get_table_last.
  - subst pB. rewrite <- (app_nil_r (_ ++ declared_columns B beforeB)).
    by apply primary_key_id.
  - apply get_table_app_l. by apply get_table_last.
  - subst pB. cbn [Table.columns app find]. by rewrite bool_decide_eq_true_2.
  - exact Hfresh.
Qed.

(** X12.  Two tables nested in each other.  The definition [A] nests
    [B], and [B] nests a definition named like [A] (that very object, or
    another one of the same name); neither designates a key, their names
    are not registered, their other entries hold known type names and no
    column names clash.  Then the build of [A] returns after three levels
    of recursion and the registry gains exactly the two tables, [A]
    first.  [A] has [id], its declared columns and, at the place of the
    nested entry, a foreign key to the [id] of [B]; [B] has [id], its
    declared columns and, last, a foreign key to the [id] of [A].  The
    definitions are not changed. *)
Theorem mutual_nesting_builds fuel r st dA beforeA kA b afterA dB beforeB kB a afterB da :
  defs st !! r = Some dA →
  TableDefinition.primary_key dA = None →
  TableDefinition.name dA ∉ table_names (tables st) →
  TableDefinition.columns dA = beforeA ++ (kA, Nested b) :: afterA →
  defs st !! b = Some dB →
  TableDefinition.primary_key dB = None →
  TableDefinition.name dB ∉ table_names (tables st) →
  TableDefinition.name dB ≠ TableDefinition.name dA →
  TableDefinition.columns dB = beforeB ++ (kB, Nested a) :: afterB →
  defs st !! a = Some da →
  TableDefinition.name da = TableDefinition.name dA →
  Forall known beforeA → Forall known afterA →
  Forall known beforeB → Forall known afterB →
  NoDup ("id" :: beforeA.*1 ++
         Column.name (parent_foreign_key (TableDefinition.name dB)) :: afterA.*1) →
  NoDup ("id" :: beforeB.*1 ++ afterB.*1 ++
         [Column.name (parent_foreign_key (TableDefinition.name dA))]) →
  construct_table (S (S (S fuel))) r st =
    (State (defs st)
       (tables st ++
        [Table.make (TableDefinition.name dA)
           (attach (TableDefinition.name dA) id_column ::
            declared_columns (TableDefinition.name dA) beforeA ++
            attach (TableDefinition.name dA)
              (parent_foreign_key (TableDefinition.name dB)) ::
            declared_columns (TableDefinition.name dA) afterA);
         Table.make (TableDefinition.name dB)
           (attach (TableDefinition.name dB) id_column ::
            declared_columns (TableDefinition.name dB) beforeB ++
            declared_columns (TableDefinition.name dB) afterB ++
            [attach (TableDefinition.name dB)
               (parent_foreign_key (TableDefinition.name dA))])]),
     Return tt).
Proof.
  intros Hr HpkA HA HcolsA Hb HpkB HB Hne HcolsB Ha Hname
    HbeforeA HafterA HbeforeB HafterB HdupA HdupB.
  destruct st as [h ts]. cbn [defs tables] in *.
  set (A := TableDefinition.name dA) in *. set (B := TableDefinition.name dB) in *.
  apply NoDup_cons in HdupA as [HidA HdupA].
  apply NoDup_app in HdupA as (HdupA_before & HdisjA & HdupA_after).
  rewrite not_elem_of_app, not_elem_of_cons in HidA.
  destruct HidA as (HidA_before & HidA_fk & HidA_after).
  apply NoDup_cons in HdupA_after as [HfkA_after HdupA_after].
  apply NoDup_cons in HdupB as [HidB HdupB].
  rewrite app_assoc in HidB, HdupB.
  apply NoDup_app in HdupB as (HdupB_cols & HdisjB & _).
  rewrite not_elem_of_app in HidB. destruct HidB as [HidB_cols HidB_fk].
  rewrite (construct_table_fresh types_dict _ r (State h ts) dA Hr HA).
  unfold bind at 1.
  assert (key_of dA = Some id_column) as Hkey by (unfold key_of; by rewrite HpkA).
  assert (without_key dA = dA) as Hd by (unfold without_key; by rewrite HpkA).
  rewrite (proj2 (key_column_Return types_dict r dA (State h ts) _ id_column Hr)
             (conj Hkey eq_refl)).
  cbn [defs tables]. rewrite Hd, (insert_id _ _ _ Hr).
  unfold bind at 1, new_table. cbn [defs tables].
  unfold bind at 1, deref. cbn [defs]. rewrite Hr, HcolsA. fold A.
  rewrite (construct_columns_plain types_dict); [|done|done|by constructor].
  rewrite construct_columns_nested. unfold bind at 1.
  set (pA := [attach A id_column] ++ declared_columns A beforeA).
  rewrite (construct_table_back_reference fuel b h ts A pA dB beforeB kB a afterB da);
    try done.
  2:{ by constructor. }
  2:{ subst pA. rewrite fmap_app. csimpl. rewrite (declared_columns_names _ _ _ HbeforeA).
      rewrite not_elem_of_cons. split; [by intros Heq; apply HidA_fk|].
      intros Hin. by apply (HdisjA _ Hin), list_elem_of_here. }
  fold B. unfold bind at 1, deref. cbn [defs]. rewrite Hb. fold B. unfold bind at 1.
  set (A2 := Table.make A (pA ++ [attach A (parent_foreign_key B)])).
  set (B2 := Table.make B (attach B id_column ::
                declared_columns B beforeB ++ declared_columns B afterB)).
  assert (B ∉ table_names (ts ++ [A2])) as HB'.
  { unfold table_names. rewrite fmap_app, not_elem_of_app. split; [done|].
    intros Heq%list_elem_of_singleton. by apply Hne. }
  rewrite (construct_foreign_key_appends A B h _ A2
             (attach A id_column) [] (attach A id_column) B2).
  - subst B2. rewrite (cons_middle A2 ts), app_assoc, (add_column_last _ _ _ _ HB').
    rewrite <- app_assoc. cbn [app]. subst A2.
    rewrite construct_columns_plain_mid; [|done|done|].
    + subst pA. rewrite <- !app_assoc. reflexivity.
    + subst pA. cbn [Table.columns]. rewrite !fmap_app. csimpl.
      rewrite (declared_columns_names _ _ _ HbeforeA).
      constructor.
      { rewrite !not_elem_of_app, not_elem_of_cons, elem_of_nil. tauto. }
      rewrite <- app_assoc. apply NoDup_app. split; [done|]. split; [done|].
      by constructor.
  - by apply get_table_mid.
  - subst A2 pA. apply primary_key_id. by repeat constructor.
  - rewrite (cons_middle A2 ts), app_assoc. by apply get_table_last.
  - subst A2 pA. cbn [Table.columns app find]. by rewrite bool_decide_eq_true_2.
  - unfold column_names. subst B2. cbn [Table.columns]. csimpl.
    rewrite fmap_app, !(declared_columns_names _ _ _ HbeforeB),
      !(declared_columns_names _ _ _ HafterB).
    rewrite not_elem_of_cons. split.
    + intros Heq. apply HidB_fk. rewrite <- Heq. apply list_elem_of_here.
    + intros Hin. by apply (HdisjB _ Hin), list_elem_of_here.
Qed.
End BuilderMutual.

(** Authors and books, nested in each other, give two tables with a
    foreign key each. *)
Lemma mutual_nesting_builds_witness :
  construct_table sqlalchemy_types 3 0 (State library_heap []) =
    (State library_heap
       ([] ++
        [Table.make "authors"
           (attach "authors" id_column ::
            declared_columns sqlalchemy_types "authors" [("name", ColumnSpec "String")] ++
            attach "authors" (parent_foreign_key "books") ::
            declared_columns sqlalchemy_types "authors" [("born", ColumnSpec "Integer")]);
         Table.make "books"
           (attach "books" id_column ::
            declared_columns sqlalchemy_types "books" [("title", ColumnSpec "String")] ++
            declared_columns sqlalchemy_types "books" [] ++
            [attach "books" (parent_foreign_key "authors")])]),
     Return tt).
Proof.
  apply (mutual_nesting_builds sqlalchemy_types 0 0 (State library_heap []) authors_def
           [("name", ColumnSpec "String")] "books" 1 [("born", ColumnSpec "Integer")]
           books_def [("title", ColumnSpec "String")] "writers" 0 [] authors_def).
  - reflexivity.
  - reflexivity.
  - apply not_elem_of_nil.
  - reflexivity.
  - reflexivity.
  - reflexivity.
  - apply not_elem_of_nil.
  - discriminate.
  - reflexivity.
  - reflexivity.
  - reflexivity.
  - repeat constructor. by eexists.
  - repeat constructor. by eexists.
  - repeat constructor. by eexists.
  - constructor.
  - distinct_names.
  - distinct_names.
Defined.

(** ** A definition nested in itself that designates its key *)

Section BuilderSelfKeyed.
Variable types_dict : gmap string TypeEngine.

Abbreviation construct_table := (construct_table types_dict).
Abbreviation declared_columns := (declared_columns types_dict).
Abbreviation key_of := (key_of types_dict).
Abbreviation known := (λ kv : string * value, is_Some (lookup_type types_dict kv.2)).

Lemma declared_columns_no_foreign_key table items :
  Forall (λ c, Column.foreign_key c = None) (declared_columns table items).
Proof.
  unfold declared_columns. induction items as [|[name v] items IH]; [constructor|].
  simpl. destruct (construct_column types_dict name v) as [c|e] eqn:Hc; [|done].
  apply construct_column_no_foreign_key in Hc as (_ & Hc & _).
  by constructor.
Qed.

(** C7.  A definition that designates its key and is nested in itself
    gets no foreign key.  The definition designates [pk], its name is not
    registered, the designated entry resolves, and among the entries that
    remain the first nested one holds a definition of the same name (it
    may be the very same object), after entries that hold known type
    names.  Then the build ends, within two levels of recursion, with
    [StopIteration]: the column of the designated entry is not flagged,
    so [construct_foreign_key] finds no primary-key column in the table.
    The registry has gained exactly one table of that name; it has no
    flagged key and none of its columns is a foreign key. *)
Theorem self_reference_with_designated_key_stops
    fuel r st d pk key before name child child_def after :
  defs st !! r = Some d →
  TableDefinition.primary_key d = Some pk →
  TableDefinition.name d ∉ table_names (tables st) →
  key_of d = Some key →
  TableDefinition.columns (without_key d) = before ++ (name, Nested child) :: after →
  defs st !! child = Some child_def →
  TableDefinition.name child_def = TableDefinition.name d →
  Forall known before →
  NoDup (pk :: before.*1) →
  let own := Table.make (TableDefinition.name d)
               (attach (TableDefinition.name d) key ::
                declared_columns (TableDefinition.name d) before) in
  construct_table (S (S fuel)) r st =
    (State (<[r := without_key d]> (defs st)) (tables st ++ [own]),
     Raise StopIteration) ∧
  filter (λ t, Table.name t = TableDefinition.name d) (tables st ++ [own]) = [own] ∧
  Table.primary_key own = [] ∧
  Forall (λ c, Column.foreign_key c = None) (Table.columns own).
Proof.
  intros Hr Hpk Hnew Hkey Hcols Hchild Hname Hbefore Hdup own.
  assert (Column.name key = pk) as Hkn.
  { by rewrite (key_of_name _ _ _ Hkey), Hpk. }
  pose proof (key_of_designated_unflagged types_dict _ _ _ Hpk Hkey) as Hflag.
  assert (Table.primary_key own = []) as Hnokey.
  { unfold Table.primary_key, own. cbn [Table.columns].
    rewrite filter_cons, decide_False by (simpl; by rewrite Hflag).
    apply declared_columns_no_key. }
  split; [|split; [|split; [done|]]].
  - destruct st as [h ts]. cbn [defs tables] in *.
    set (table := TableDefinition.name d) in *.
    rewrite (construct_table_fresh types_dict _ r (State h ts) d Hr Hnew).
    unfold bind at 1.
    rewrite (proj2 (key_column_Return types_dict r d (State h ts) _ key Hr)
               (conj Hkey eq_refl)).
    cbn [defs tables]. unfold bind at 1, new_table. cbn [defs tables].
    unfold bind at 1, deref. cbn [defs]. rewrite lookup_insert_eq, Hcols. fold table.
    rewrite (construct_columns_plain types_dict); [|done|done|by csimpl; rewrite Hkn].
    rewrite construct_columns_nested. unfold bind at 1.
    assert (∃ cd, <[r := without_key d]> h !! child = Some cd ∧
                  TableDefinition.name cd = table) as (cd & Hcd & Hcdn).
    { destruct (decide (child = r)) as [->|Hne].
      - exists (without_key d). rewrite lookup_insert_eq. split; [done|].
        apply without_key_name.
      - exists child_def. by rewrite lookup_insert_ne. }
    rewrite (construct_table_registered types_dict fuel child (State _ _) cd); [|done|].
    2:{ rewrite Hcdn. cbn [tables]. unfold table_names. rewrite fmap_app.
        apply elem_of_app. right. apply list_elem_of_here. }
    unfold bind at 1, deref. cbn [defs]. rewrite Hcd, Hcdn. unfold bind at 1.
    unfold construct_foreign_key, bind, the_table. cbn [tables].
    rewrite (get_table_last _ _ _ Hnew).
    cbn [app]. unfold own in Hnokey. by rewrite Hnokey.
  - rewrite filter_app, (filter_named_new _ _ Hnew). simpl.
    by rewrite filter_cons, decide_True, filter_nil.
  - unfold own. cbn [Table.columns]. constructor.
    + simpl. exact (key_of_no_foreign_key types_dict _ _ Hkey).
    + apply declared_columns_no_foreign_key.
Qed.
End BuilderSelfKeyed.

(** The definition [chapter] designates [number] and holds itself under
    [sections]. *)
Lemma self_reference_with_designated_key_stops_witness :
  construct_table sqlalchemy_types 2 0 (State chapter_heap []) =
    (State (<[0 := without_key chapter_def]> chapter_heap)
       ([] ++
        [Table.make "chapter"
           (attach "chapter" (Column.make "number" (Instance "Integer") false None None) ::
            declared_columns sqlalchemy_types "chapter" [("title", ColumnSpec "String")])]),
     Raise StopIteration) ∧
  filter (λ t, Table.name t = "chapter")
    ([] ++
     [Table.make "chapter"
        (attach "chapter" (Column.make "number" (Instance "Integer") false None None) ::
         declared_columns sqlalchemy_types "chapter" [("title", ColumnSpec "String")])]) =
    [Table.make "chapter"
       (attach "chapter" (Column.make "number" (Instance "Integer") false None None) ::
        declared_columns sqlalchemy_types "chapter" [("title", ColumnSpec "String")])] ∧
  Table.primary_key
    (Table.make "chapter"
       (attach "chapter" (Column.make "number" (Instance "Integer") false None None) ::
        declared_columns sqlalchemy_types "chapter" [("title", ColumnSpec "String")])) = [] ∧
  Forall (λ c, Column.foreign_key c = None)
    (Table.columns
       (Table.make "chapter"
          (attach "chapter" (Column.make "number" (Instance "Integer") false None None) ::
           declared_columns sqlalchemy_types "chapter" [("title", ColumnSpec "String")]))).
Proof.
  apply (self_reference_with_designated_key_stops sqlalchemy_types 0 0
           (State chapter_heap []) chapter_def "number"
           (Column.make "number" (Instance "Integer") false None None)
           [("title", ColumnSpec "String")] "sections" 0 chapter_def
           [("pages", ColumnSpec "Integer")]).
  - reflexivity.
  - reflexivity.
  - apply not_elem_of_nil.
  - reflexivity.
  - reflexivity.
  - reflexivity.
  - reflexivity.
  - repeat constructor. by eexists.
  - distinct_names.
Defined.
